(** * multilabel_classification_axiomatized.py: the balanced geometric
    partitioner and the sequence of knowledge-base registrations.

    The script draws [nr_samples] points of the unit square, splits them by
    the squared distance to (0.5,0.5) against the threshold .09, truncates
    both classes to the size of the smaller one and hands the arrays to the
    logic-tensor-network wrapper.  The numeric work of lines 14-15 runs in
    IEEE binary64 (a float32 array minus a float64 array is a float64
    array), which is modelled here with the executable [SpecFloat]
    operations at precision 53. *)

From Stdlib Require Import ZArith List Bool Lia QArith Lqa String.
From Stdlib Require Import Floats.SpecFloat.
From stdpp Require Import base gmap list strings.

Local Open Scope Z_scope.

(** ** IEEE binary64, as numpy's float64 *)

Module F64.

Definition prec : Z := 53.
Definition emax : Z := 1024.

Definition t := spec_float.

Definition sub (x y : t) : t := SFsub prec emax x y.
Definition add (x y : t) : t := SFadd prec emax x y.
Definition mul (x y : t) : t := SFmul prec emax x y.

(** [np.square] on float64 is the correctly rounded product x*x. *)
Definition square (x : t) : t := mul x x.

(** numpy's [<] and [>=]: both are false when an operand is NaN. *)
Definition lt (x y : t) : bool := SFltb x y.
Definition ge (x y : t) : bool := SFleb y x.

Definition is_nan (x : t) : bool :=
  match x with S754_nan => true | _ => false end.

Definition valid (x : t) : bool := valid_binary prec emax x.

(** The literals of the script, as the doubles nearest to them. *)
Definition zero : t := S754_zero false.
Definition c_0_5 : t := S754_finite false 4503599627370496 (-53).
Definition c_0_75 : t := S754_finite false 6755399441055744 (-53).
Definition c_0_09 : t := S754_finite false 6485183463413514 (-56).
Definition c_0_1 : t := S754_finite false 7205759403792794 (-56).
Definition c_0_125 : t := S754_finite false 4503599627370496 (-55).

(** Exact rational value of a finite double (0 for the others). *)
Definition to_Q (x : t) : Q :=
  match x with
  | S754_finite s m e =>
      let v := match e with
               | Z0 => inject_Z (Zpos m)
               | Zpos p => inject_Z (Zpos m * 2 ^ Zpos p)
               | Zneg p => Qmake (Zpos m) (2 ^ p)%positive
               end in
      if s then Qopp v else v
  | _ => 0%Q
  end.

End F64.

(** ** IEEE binary32, the element type of [data] *)

Module F32.

Definition prec : Z := 24.
Definition emax : Z := 128.

(** [.astype(np.float32)]: a double is rounded to the nearest single,
    ties to even; zeros, infinities and NaN are kept. *)
Definition of_f64 (x : spec_float) : spec_float :=
  match x with
  | S754_finite s m e => binary_round prec emax s m e
  | _ => x
  end.

(** The promotion of a single to a double in [data-[.5,.5]]: the value is
    renormalised to a 53-bit mantissa, which is exact for every single. *)
Definition to_f64 (x : spec_float) : F64.t :=
  match x with
  | S754_finite s m e => binary_round F64.prec F64.emax s m e
  | _ => x
  end.

End F32.

(** ** Lines 14-16: the balanced geometric partitioner, on values *)

(** A row of the (n,2) array. *)
Definition point : Type := spec_float * spec_float.

(** [np.sum(np.square(data-[.5,.5]),axis=1)] for one row: both columns are
    promoted to float64, the centre is subtracted, the differences are
    squared and the two squares are added, each operation rounded.  (A
    reduction that starts from zero adds 0 first, which changes nothing:
    the squares are never negative.) *)
Definition sq_dist (p : point) : F64.t :=
  F64.add (F64.square (F64.sub (F32.to_f64 (fst p)) F64.c_0_5))
          (F64.square (F64.sub (F32.to_f64 (snd p)) F64.c_0_5)).

(** The masks of lines 14 and 15. *)
Definition mask_A (p : point) : bool := F64.lt (sq_dist p) F64.c_0_09.
Definition mask_B (p : point) : bool := F64.ge (sq_dist p) F64.c_0_09.

(** [a[np.where(mask)]]: the rows whose mask is set, in their order. *)
Definition index_where (mask : point -> bool) (a : list point) : list point :=
  List.filter mask a.

(** Line 16.  The right-hand side is evaluated before either name is
    rebound, so both slices use the lengths before truncation. *)
Definition balance (data_A data_B : list point) : list point * list point :=
  (take (Nat.min (length data_A) (length data_B)) data_A,
   take (Nat.min (length data_A) (length data_B)) data_B).

Definition partition (data : list point) : list point * list point :=
  let data_A := index_where mask_A data in
  let data_B := index_where mask_B data in
  balance data_A data_B.

Definition data_A_of (data : list point) : list point := fst (partition data).
Definition data_B_of (data : list point) : list point := snd (partition data).

(** A row as the generator produces it: no coordinate is NaN. *)
Definition no_nan (p : point) : bool :=
  negb (F64.is_nan (fst p)) && negb (F64.is_nan (snd p)).

(** Neither NaN nor minus infinity: the range of [F64.square]. *)
Definition above_minus_inf (x : F64.t) : bool :=
  match x with
  | S754_nan | S754_infinity true => false
  | _ => true
  end.

(** The same distance and threshold over the rationals, for the probes. *)
Definition sq_dist_Q (x y : Q) : Q :=
  ((x - (1 # 2)) * (x - (1 # 2)) + (y - (1 # 2)) * (y - (1 # 2)))%Q.
Definition threshold_Q : Q := (9 # 100)%Q.

(** ** numpy arrays: buffers on a heap and views into them *)

Module Np.

Definition loc := nat.

(** An array object: the buffer it reads from and its number of rows.
    A basic slice [a[:k,:]] is a second object on the same buffer. *)
Record ndarray := { buf : loc; rows : nat }.

Definition len (a : ndarray) : nat := rows a.

Definition read (h : gmap loc (list point)) (a : ndarray) : list point :=
  take (rows a) (default [] (h !! buf a)).

(** A new array owns a buffer that no live array uses. *)
Definition alloc (h : gmap loc (list point)) (v : list point)
  : gmap loc (list point) * ndarray :=
  let l := fresh (dom h) in
  (<[l := v]> h, {| buf := l; rows := length v |}).

(** [a[:k,:]] for a non-negative [k]: a view, nothing is copied. *)
Definition slice (a : ndarray) (k : nat) : ndarray :=
  {| buf := buf a; rows := Nat.min k (rows a) |}.

End Np.

Import Np.

(** ** The script as a state-passing program *)

(** What the script asks of its collaborators, in call order. *)
Inductive call :=
| ltnw_predicate (label : string) (number_of_features : nat)
| ltnw_variable (label : string) (feed : list point)
| ltnw_constant (label : string) (feed : list F64.t)
| ltnw_formula (formula : string)
| ltnw_initialize_knowledgebase (initial_sat_level_threshold : F64.t)
| ltnw_train (max_iterations : N)
| ltnw_ask (formula : string)
| plt_figure (width height : nat)
| plt_subplot (nrows ncols index : nat)
| plt_title (label : string)
| plt_scatter (x y : list spec_float) (c : list F64.t)
| plt_show
| print_len (text : string) (n : nat)
| print_result (text : string) (r : list F64.t).

Record world := {
  heap : gmap loc (list point);   (* the numpy buffers *)
  draws : nat;                    (* calls made to np.random so far *)
  log : list call                 (* calls made to ltnw, plt and print *)
}.

Definition M (A : Type) : Type := world -> A * world.

#[global] Instance M_ret : MRet M := λ A x w, (x, w).
#[global] Instance M_bind : MBind M :=
  λ A B f m w, let '(x, w') := m w in f x w'.

Definition exec {A} (m : M A) (w : world) : world := snd (m w).
Definition eval {A} (m : M A) (w : world) : A := fst (m w).

Definition is_formula (c : call) : bool :=
  match c with ltnw_formula _ => true | _ => false end.

Definition formulas_of (l : list call) : list string :=
  omap (λ c, match c with ltnw_formula f => Some f | _ => None end) l.

Definition predicates_of (l : list call) : list (string * nat) :=
  omap (λ c, match c with ltnw_predicate s n => Some (s, n) | _ => None end) l.

Definition variables_of (l : list call) : list (string * list point) :=
  omap (λ c, match c with ltnw_variable s v => Some (s, v) | _ => None end) l.

(** The calls made before the first [ltnw.formula]. *)
Fixpoint before_axioms (l : list call) : list call :=
  match l with
  | [] => []
  | c :: l' => if is_formula c then [] else c :: before_axioms l'
  end.

Definition nr_samples : nat := 1000.
Definition max_iterations : N := 20000%N.

(** Width of a row of [data]: the arrays have shape (n,2). *)
Definition point_width : nat := 2.

Section Script.

(** The collaborators are left open: the stream of uniform draws (row [i]
    of the [k]-th call, as doubles), and the answers of the wrapper, which
    may depend on every call made so far. *)
Variable uniform : nat -> nat -> point.
Variable train_result : list call -> F64.t.
Variable ask_result : list call -> string -> list F64.t.

(** Modelled from the spec: the wrapper and pyplot are not among the
    sources.  A call to them is recorded with its arguments in the log, the
    process-wide state the wrapper accumulates its registrations in; it
    returns, and it writes none of the script's numpy buffers. *)
Definition emit (c : call) : M unit :=
  λ w, (tt, {| heap := heap w; draws := draws w; log := log w ++ [c] |}).

Definition np_read (a : ndarray) : M (list point) :=
  λ w, (read (heap w) a, w).

Definition np_new (v : list point) : M ndarray :=
  λ w, let '(h, a) := alloc (heap w) v in
       (a, {| heap := h; draws := draws w; log := log w |}).

(** The rows of the [k]-th draw after [.astype(np.float32)]. *)
Definition f32_rows (k n : nat) : list point :=
  (λ i, (F32.of_f64 (fst (uniform k i)), F32.of_f64 (snd (uniform k i))))
    <$> seq 0 n.

(** [np.random.uniform([0,0],[1.,1.],(n,2)).astype(np.float32)] *)
Definition np_random_uniform_f32 (n : nat) : M ndarray :=
  λ w, np_new (f32_rows (draws w) n)
              {| heap := heap w; draws := S (draws w); log := log w |}.

(** [a[np.where(mask)]]: advanced indexing copies the selected rows. *)
Definition np_index_where (mask : point -> bool) (a : ndarray) : M ndarray :=
  v ← np_read a; np_new (index_where mask v).

(** Modelled from the spec: [ask] evaluates an expression and returns a
    tensor of truth values, here whatever [ask_result] gives for the calls
    made so far. *)
Definition ask (f : string) : M (list F64.t) :=
  λ w, (ask_result (log w) f,
        {| heap := heap w; draws := draws w; log := log w ++ [ltnw_ask f] |}).

(** Modelled from the spec: [train] is one blocking call that returns the
    final satisfaction level. *)
Definition train (n : N) : M F64.t :=
  λ w, (train_result (log w),
        {| heap := heap w; draws := draws w; log := log w ++ [ltnw_train n] |}).

(** Modelled from the spec: [variable] binds a name to the tensor of rows
    the array holds when the call is made. *)
Definition variable (label : string) (a : ndarray) : M unit :=
  v ← np_read a; emit (ltnw_variable label v).

(** [plt.scatter(a[:,0],a[:,1],c=result.squeeze())] *)
Definition scatter (a : ndarray) (result : list F64.t) : M unit :=
  v ← np_read a; emit (plt_scatter (fst <$> v) (snd <$> v) result).

Definition line_13 : M ndarray := np_random_uniform_f32 nr_samples.

Definition lines_14_16 (data : ndarray) : M (ndarray * ndarray) :=
  data_A ← np_index_where mask_A data;
  data_B ← np_index_where mask_B data;
  mret (slice data_A (Nat.min (len data_A) (len data_B)),
        slice data_B (Nat.min (len data_A) (len data_B))).

Definition lines_18_20 (data_A data_B data : ndarray) : M unit :=
  emit (print_len "# samples data_A: %s" (len data_A));;
  emit (print_len "# samples data_B: %s" (len data_B));;
  emit (print_len "# samples data: %s" (len data)).

Definition lines_22_27 (data_A data_B data : ndarray) : M unit :=
  emit (ltnw_predicate "A" 2);;
  emit (ltnw_predicate "B" 2);;
  variable "?data_A" data_A;;
  variable "?data_B" data_B;;
  variable "?data" data.

Definition lines_29_33 : M unit :=
  emit (ltnw_formula "forall ?data_A: A(?data_A)");;
  emit (ltnw_formula "forall ?data_B: B(?data_B)");;
  emit (ltnw_formula "forall ?data: A(?data) -> ~B(?data)");;
  emit (ltnw_formula "forall ?data: ~B(?data) -> A(?data)").

Definition lines_35_36 : M F64.t :=
  emit (ltnw_initialize_knowledgebase F64.c_0_1);;
  train max_iterations.

Definition lines_38_47 (data : ndarray) : M unit :=
  emit (plt_figure 10 8);;
  result ← ask "A(?data)";
  emit (plt_subplot 2 2 1);;
  emit (plt_title "A(x) - training");;
  scatter data result;;
  result ← ask "B(?data)";
  emit (plt_subplot 2 2 2);;
  emit (plt_title "B(x) - training");;
  scatter data result.

Definition lines_49_61 : M ndarray :=
  data_test ← np_random_uniform_f32 nr_samples;
  variable "?data_test" data_test;;
  result ← ask "A(?data_test)";
  emit (plt_subplot 2 2 3);;
  emit (plt_title "A(x) - test");;
  scatter data_test result;;
  result ← ask "B(?data_test)";
  emit (plt_subplot 2 2 4);;
  scatter data_test result;;
  emit (plt_title "B(x) -test");;
  emit plt_show;;
  mret data_test.

Definition lines_63_68 : M unit :=
  emit (ltnw_constant "a" [F64.c_0_5; F64.c_0_5]);;
  emit (ltnw_constant "b" [F64.c_0_75; F64.c_0_75]);;
  r ← ask "A(a)"; emit (print_result "a is in A: %s" r);;
  r ← ask "A(b)"; emit (print_result "b is in A: %s" r);;
  r ← ask "B(a)"; emit (print_result "a is in B: %s" r);;
  r ← ask "B(b)"; emit (print_result "b is in B: %s" r).

(** Everything after line 13, given the array it produced. *)
Definition after_line_13 (data : ndarray) : M unit :=
  '(data_A, data_B) ← lines_14_16 data;
  lines_18_20 data_A data_B data;;
  lines_22_27 data_A data_B data;;
  lines_29_33;;
  sat_level ← lines_35_36;
  lines_38_47 data;;
  data_test ← lines_49_61;
  lines_63_68.

Definition script : M unit := data ← line_13; after_line_13 data.

(** The worlds between the steps of [after_line_13], in order. *)
Definition checkpoints (data : ndarray) (w1 : world) : list world :=
  let '((data_A, data_B), w2) := lines_14_16 data w1 in
  let w3 := exec (lines_18_20 data_A data_B data) w2 in
  let w4 := exec (lines_22_27 data_A data_B data) w3 in
  let w5 := exec lines_29_33 w4 in
  let w6 := exec lines_35_36 w5 in
  let w7 := exec (lines_38_47 data) w6 in
  let w8 := exec lines_49_61 w7 in
  let w9 := exec lines_63_68 w8 in
  [w1; w2; w3; w4; w5; w6; w7; w8; w9].

End Script.

(** A fresh interpreter: no array, no draw, no call yet. *)
Definition initial_world : world := {| heap := ∅; draws := 0; log := [] |}.

(** An array object whose buffer exists. *)
Definition live (h : gmap loc (list point)) (a : ndarray) : Prop :=
  is_Some (h !! buf a).

(** A computation registers no formula: it only appends calls other than
    [ltnw.formula] to the log. *)
Definition quiet {A} (m : M A) : Prop :=
  ∀ w, ∃ calls, log (exec m w) = log w ++ calls ∧ formulas_of calls = [].

(** The probes of lines 63-64 as rows, a row whose computed squared
    distance is exactly the double nearest to .09 (its second coordinate is
    the double nearest to 0.2), and small worlds that hold the same three
    rows at different places. *)
Definition probe_a : point := (F64.c_0_5, F64.c_0_5).
Definition probe_b : point := (F64.c_0_75, F64.c_0_75).
Definition boundary_row : point :=
  (F64.c_0_5, S754_finite false 7205759403792794 (-55)).
Definition three_rows : list point := [probe_a; boundary_row; probe_b].

Definition world_one : world :=
  {| heap := {[ 0%nat := three_rows ]}; draws := 0; log := [] |}.
Definition world_two : world :=
  {| heap := {[ 2%nat := [probe_b]; 5%nat := three_rows ]};
     draws := 7; log := [plt_show] |}.

(** A computation only ever adds buffers: every buffer that is live before
    it is live, with the same contents, after it. *)
Definition grows {A} (m : M A) : Prop := ∀ w, heap w ⊆ heap (exec m w).

(** ** Further views of the rows and of the log *)

(** A row with its two columns exchanged. *)
Definition swap_columns (p : point) : point := (snd p, fst p).

(** The rows with a NaN coordinate. *)
Definition nan_rows (data : list point) : list point :=
  List.filter (fun p => negb (no_nan p)) data.

Definition is_infinity (x : spec_float) : bool :=
  match x with S754_infinity _ => true | _ => false end.

(** What a call adds to the wrapper's knowledge base, what it trains, what
    it asks, and what the script prints and plots. *)
Definition is_registration (c : call) : bool :=
  match c with
  | ltnw_predicate _ _ | ltnw_variable _ _ | ltnw_constant _ _
  | ltnw_formula _ => true
  | _ => false
  end.

Definition is_training (c : call) : bool :=
  match c with
  | ltnw_initialize_knowledgebase _ | ltnw_train _ => true
  | _ => false
  end.

Definition registrations_of (l : list call) : list call :=
  List.filter is_registration l.

Definition trainings_of (l : list call) : list call :=
  List.filter is_training l.

Definition asks_of (l : list call) : list string :=
  omap (λ c, match c with ltnw_ask f => Some f | _ => None end) l.

Definition print_lens_of (l : list call) : list (string * nat) :=
  omap (λ c, match c with print_len s n => Some (s, n) | _ => None end) l.

Definition scatter_points_of (l : list call)
  : list (list spec_float * list spec_float) :=
  omap (λ c, match c with plt_scatter x y _ => Some (x, y) | _ => None end) l.

(** ** The rows of line 13 and their exact distance *)

(** One row after [.astype(np.float32)]. *)
Definition astype_f32 (p : point) : point :=
  (F32.of_f64 (fst p), F32.of_f64 (snd p)).

(** What [np.random.uniform([0,0],[1.,1.],...)] draws for one coordinate: a
    double of the interval [0,1). *)
Definition unit_f64 (x : spec_float) : bool :=
  match x with
  | S754_zero _ => true
  | S754_finite false m e =>
      bounded F64.prec F64.emax m e && (Zpos m * 2 ^ (e + 1074) <? 2 ^ 1074)
  | _ => false
  end.

(** What the cast to float32 makes of it: a single of the interval [0,1]
    (the doubles just below 1 round up to 1). *)
Definition unit_f32 (x : spec_float) : bool :=
  match x with
  | S754_zero _ => true
  | S754_finite false m e =>
      bounded F32.prec F32.emax m e && (Zpos m * 2 ^ (e + 149) <=? 2 ^ 149)
  | _ => false
  end.

(** A row of [data]: both coordinates are singles of the unit interval. *)
Definition unit_row (p : point) : bool :=
  unit_f32 (fst p) && unit_f32 (snd p).

(** The squared Euclidean distance of a row to (0.5,0.5), computed without
    rounding on the exact values of its coordinates. *)
Definition exact_sq_dist (p : point) : Q :=
  sq_dist_Q (F64.to_Q (fst p)) (F64.to_Q (snd p)).

(** Two of the rows of [three_rows] after the cast of line 13. *)
Definition rounded_rows : list point :=
  astype_f32 <$> [boundary_row; probe_b].

(** Number of binary digits of a mantissa. *)
Definition dig (m : positive) : Z := Zpos (digits2_pos m).

(** The value of a float as an integer, in units of 2^-frac_bits. *)
Definition frac_bits : Z := 3000.

Definition scaled (x : spec_float) : Z :=
  match x with
  | S754_finite s m e => (if s then -1 else 1) * (Zpos m * 2 ^ (e + frac_bits))
  | _ => 0
  end.

(** A zero or a normal double. *)
Definition normal64 (x : spec_float) : Prop :=
  match x with
  | S754_zero _ => True
  | S754_finite _ m e => dig m = 53 /\ -1074 <= e <= 971
  | _ => False
  end.

(** A scaled value that a double represents without rounding. *)
Definition target (v : Z) : Prop :=
  v = 0 \/ exists M E, dig M = 53 /\ -1074 <= E <= 971 /\
                       Zpos M * 2 ^ (E + frac_bits) = Z.abs v.

(** A coordinate in units of 2^-26, for the singles that are multiples of
    2^-26 (all those from 1/8 on). *)
Definition grid (x : spec_float) : Z :=
  match x with
  | S754_finite false m e => Zpos m * 2 ^ (e + 26)
  | _ => 0
  end.

Definition on_grid (x : spec_float) : bool :=
  match x with
  | S754_finite _ _ e => -26 <=? e
  | _ => true
  end.

(** The squared distance of a row on the grid, in units of 2^-52. *)
Definition grid_sum (p : point) : Z :=
  (grid (fst p) - 2 ^ 25) * (grid (fst p) - 2 ^ 25)
  + (grid (snd p) - 2 ^ 25) * (grid (snd p) - 2 ^ 25).

(** * Properties *)

(** ** Rounding never produces NaN *)

Section Rounding.
Variables prec emax : Z.

Lemma shr_1_nonneg mrs : 0 <= shr_m mrs -> 0 <= shr_m (shr_1 mrs).
Proof.
  destruct mrs as [m r s]; simpl.
  destruct m as [|p|p]; [done| |lia].
  intros _. by destruct p.
Qed.

Lemma iter_shr_1_nonneg p : forall mrs,
  0 <= shr_m mrs -> 0 <= shr_m (SpecFloat.iter_pos shr_1 p mrs).
Proof.
  induction p as [p IH|p IH|]; intros mrs H; simpl.
  - apply IH, IH, shr_1_nonneg, H.
  - apply IH, IH, H.
  - apply shr_1_nonneg, H.
Qed.

Lemma shr_nonneg mrs e n : 0 <= shr_m mrs -> 0 <= shr_m (fst (shr mrs e n)).
Proof.
  intros H. destruct n; simpl; try done. by apply iter_shr_1_nonneg.
Qed.

Lemma shr_fexp_nonneg m e l :
  0 <= m -> 0 <= shr_m (fst (shr_fexp prec emax m e l)).
Proof.
  intros H. unfold shr_fexp. apply shr_nonneg.
  by destruct l as [|[]].
Qed.

Lemma round_nearest_even_nonneg m l : 0 <= m -> 0 <= round_nearest_even m l.
Proof.
  intros H. destruct l as [|[]]; simpl; try done.
  - destruct (Z.even m); lia.
  - lia.
Qed.

Lemma binary_round_aux_not_nan s m e l :
  0 <= m -> F64.is_nan (binary_round_aux prec emax s m e l) = false.
Proof.
  intros H. unfold binary_round_aux.
  pose proof (shr_fexp_nonneg m e l H) as H1.
  destruct (shr_fexp prec emax m e l) as [mrs' e']. simpl in H1.
  pose proof (shr_fexp_nonneg _ e' loc_Exact
                (round_nearest_even_nonneg _ (loc_of_shr_record mrs') H1)) as H2.
  destruct (shr_fexp prec emax _ e' loc_Exact) as [mrs'' e'']. simpl in H2.
  destruct (shr_m mrs'') as [|p|p]; [done| |lia].
  by destruct (e'' <=? emax - prec).
Qed.

Lemma binary_round_aux_sign s m e l :
  match binary_round_aux prec emax s m e l with
  | S754_infinity s' => s' = s
  | _ => True
  end.
Proof.
  unfold binary_round_aux.
  destruct (shr_fexp prec emax m e l) as [mrs' e'].
  destruct (shr_fexp prec emax _ e' loc_Exact) as [mrs'' e''].
  destruct (shr_m mrs'') as [|p|p]; try done.
  by destruct (e'' <=? emax - prec).
Qed.

Lemma binary_round_not_nan s m e :
  F64.is_nan (binary_round prec emax s m e) = false.
Proof.
  unfold binary_round. destruct (shl_align _ _ _) as [mz ez].
  by apply binary_round_aux_not_nan.
Qed.

Lemma binary_normalize_not_nan m e sz :
  F64.is_nan (binary_normalize prec emax m e sz) = false.
Proof. destruct m; simpl; [done| |]; apply binary_round_not_nan. Qed.

End Rounding.

Lemma SFcompare_antisym x y : SFcompare y x = CompOpp <$> SFcompare x y.
Proof.
  destruct x as [sx|sx| |sx mx ex], y as [sy|sy| |sy my ey]; simpl;
    try done; try (by destruct sx); try (by destruct sy);
    try (by destruct sx, sy).
  destruct sx, sy; simpl; try done.
  all: rewrite (Z.compare_antisym ex ey).
  all: replace (Pos.compare_cont Eq my mx)
         with (CompOpp (Pos.compare_cont Eq mx my))
         by apply (Pos.compare_cont_antisym mx my Eq).
  all: simpl; by destruct (ex ?= ey), (Pos.compare_cont Eq mx my).
Qed.

Lemma to_f64_not_nan x : F64.is_nan x = false -> F64.is_nan (F32.to_f64 x) = false.
Proof. destruct x; simpl; try done. intros _. apply binary_round_not_nan. Qed.

Lemma sub_centre_not_nan x :
  F64.is_nan x = false -> F64.is_nan (F64.sub x F64.c_0_5) = false.
Proof.
  destruct x as [s|s| |s m e]; simpl; try done.
  intros _. apply binary_normalize_not_nan.
Qed.

Lemma square_above_minus_inf d :
  F64.is_nan d = false -> above_minus_inf (F64.square d) = true.
Proof.
  destruct d as [s|s| |s m e]; simpl; try done.
  - by destruct s.
  - intros _. unfold F64.square, F64.mul, SFmul.
    pose proof (binary_round_aux_not_nan F64.prec F64.emax (xorb s s)
                  (Z.pos (m * m)) (e + e) loc_Exact ltac:(lia)) as Hn.
    pose proof (binary_round_aux_sign F64.prec F64.emax (xorb s s)
                  (Z.pos (m * m)) (e + e) loc_Exact) as Hs.
    destruct (binary_round_aux _ _ _ _ _ _) as [| s' | |]; try done.
    subst s'. by destruct s.
Qed.

Lemma add_not_nan x y :
  above_minus_inf x = true -> above_minus_inf y = true ->
  F64.is_nan (F64.add x y) = false.
Proof.
  destruct x as [sx|sx| |sx mx ex], y as [sy|sy| |sy my ey]; simpl;
    try done; try (by destruct sx); try (by destruct sy);
    try (by destruct sx, sy).
  intros _ _. apply binary_normalize_not_nan.
Qed.

Lemma sq_dist_not_nan p : no_nan p = true -> F64.is_nan (sq_dist p) = false.
Proof.
  destruct p as [x y]. unfold no_nan. simpl.
  intros [Hx Hy]%andb_prop.
  apply negb_true_iff in Hx. apply negb_true_iff in Hy.
  unfold sq_dist. simpl.
  apply add_not_nan; apply square_above_minus_inf, sub_centre_not_nan,
    to_f64_not_nan; assumption.
Qed.

Lemma of_f64_not_nan x : F64.is_nan x = false -> F64.is_nan (F32.of_f64 x) = false.
Proof. destruct x; simpl; try done. intros _. apply binary_round_not_nan. Qed.

(** Draws without NaN give rows without NaN. *)
Lemma f32_rows_no_nan uniform k n :
  (forall i, no_nan (uniform k i) = true) ->
  Forall (fun p => no_nan p = true) (f32_rows uniform k n).
Proof.
  intros Hu. unfold f32_rows. apply Forall_fmap, Forall_forall.
  intros i _. specialize (Hu i). unfold no_nan in *. simpl.
  apply andb_prop in Hu as [H1 H2].
  apply negb_true_iff in H1. apply negb_true_iff in H2.
  by rewrite (of_f64_not_nan _ H1), (of_f64_not_nan _ H2).
Qed.

(** A row with a NaN coordinate passes neither filter. *)
Lemma nan_row_in_neither_class y :
  mask_A (S754_nan, y) = false /\ mask_B (S754_nan, y) = false.
Proof. split; reflexivity. Qed.

(** The literals are canonical doubles. *)
Lemma literals_valid :
  F64.valid F64.c_0_5 = true /\ F64.valid F64.c_0_75 = true /\
  F64.valid F64.c_0_09 = true /\ F64.valid F64.c_0_1 = true /\
  F64.valid F64.c_0_125 = true.
Proof. repeat split; by vm_compute. Qed.

Lemma mask_A_B_disjoint p : mask_A p = true -> mask_B p = false.
Proof.
  unfold mask_A, mask_B, F64.lt, F64.ge, SFltb, SFleb.
  rewrite (SFcompare_antisym (sq_dist p) F64.c_0_09).
  by destruct (SFcompare (sq_dist p) F64.c_0_09) as [[]|].
Qed.

Lemma SFcompare_defined x y :
  F64.is_nan x = false -> F64.is_nan y = false -> is_Some (SFcompare x y).
Proof.
  destruct x as [sx|sx| |sx mx ex], y as [sy|sy| |sy my ey]; simpl;
    intros; try discriminate; eauto.
Qed.

Lemma ge_complement x y :
  F64.is_nan x = false -> F64.is_nan y = false ->
  F64.ge x y = negb (F64.lt x y).
Proof.
  intros Hx Hy. unfold F64.lt, F64.ge, SFltb, SFleb.
  rewrite (SFcompare_antisym x y).
  destruct (SFcompare_defined x y Hx Hy) as [c ->]. by destruct c.
Qed.

Lemma mask_B_complement p :
  F64.is_nan (sq_dist p) = false -> mask_B p = negb (mask_A p).
Proof. intros H. unfold mask_A, mask_B. by apply ge_complement. Qed.

(** ** The two filters and the truncation, on lists *)

Lemma index_where_In mask data p :
  In p (index_where mask data) <-> In p data /\ mask p = true.
Proof. unfold index_where. apply filter_In. Qed.

Lemma index_where_sublist mask data : index_where mask data `sublist_of` data.
Proof.
  unfold index_where. induction data as [|p data IH]; simpl.
  - constructor.
  - destruct (mask p); by constructor.
Qed.

Lemma masks_length_le data :
  (length (index_where mask_A data) + length (index_where mask_B data)
   <= length data)%nat.
Proof.
  unfold index_where. induction data as [|p data IH]; simpl; [lia|].
  destruct (mask_A p) eqn:HA.
  - rewrite (mask_A_B_disjoint p HA). simpl. lia.
  - destruct (mask_B p); simpl; lia.
Qed.

Lemma masks_length_eq data :
  Forall (fun p => no_nan p = true) data ->
  (length (index_where mask_A data) + length (index_where mask_B data)
   = length data)%nat.
Proof.
  unfold index_where. induction 1 as [|p data Hp _ IH]; simpl; [lia|].
  rewrite (mask_B_complement p (sq_dist_not_nan p Hp)).
  destruct (mask_A p); simpl; lia.
Qed.

Lemma In_take {A} (x : A) n l : In x (take n l) -> In x l.
Proof.
  intros H%list_elem_of_In. apply list_elem_of_In.
  by apply (subseteq_take n l).
Qed.

Lemma data_A_of_eq data :
  data_A_of data =
  take (Nat.min (length (index_where mask_A data))
                (length (index_where mask_B data)))
       (index_where mask_A data).
Proof. reflexivity. Qed.

Lemma data_B_of_eq data :
  data_B_of data =
  take (Nat.min (length (index_where mask_A data))
                (length (index_where mask_B data)))
       (index_where mask_B data).
Proof. reflexivity. Qed.

Lemma length_data_A_of data :
  length (data_A_of data) =
  Nat.min (length (index_where mask_A data)) (length (index_where mask_B data)).
Proof. rewrite data_A_of_eq, length_take. lia. Qed.

Lemma length_data_B_of data :
  length (data_B_of data) =
  Nat.min (length (index_where mask_A data)) (length (index_where mask_B data)).
Proof. rewrite data_B_of_eq, length_take. lia. Qed.

Lemma mask_A_compare p :
  mask_A p = true <-> SFcompare (sq_dist p) F64.c_0_09 = Some Lt.
Proof.
  unfold mask_A, F64.lt, SFltb.
  destruct (SFcompare (sq_dist p) F64.c_0_09) as [[]|]; split; congruence.
Qed.

Lemma mask_B_compare p :
  mask_B p = true <->
  SFcompare (sq_dist p) F64.c_0_09 = Some Eq \/
  SFcompare (sq_dist p) F64.c_0_09 = Some Gt.
Proof.
  unfold mask_B, F64.ge, SFleb.
  rewrite (SFcompare_antisym (sq_dist p) F64.c_0_09).
  destruct (SFcompare (sq_dist p) F64.c_0_09) as [[]|]; simpl;
    split; intros H; try discriminate; try tauto;
    destruct H; discriminate.
Qed.

(** ** The balanced partition *)

(** C1. For every sample array, after the filter-and-truncate step of
    lines 14-16 the two class subsets have the same number of rows. *)
Theorem balanced_classes_same_length (data : list point) :
  length (data_A_of data) = length (data_B_of data).
Proof. by rewrite length_data_A_of, length_data_B_of. Qed.

(** C3. After balancing, the two subsets together have at most as many rows
    as data; their total is twice the smaller of the two class sizes before
    truncation; and, for rows without NaN (as the generator draws them), it
    equals the size of data exactly when the two classes were equally large
    before truncation. *)
Theorem balanced_total_size (data : list point) :
  Forall (fun p => no_nan p = true) data ->
  (length (data_A_of data) + length (data_B_of data) <= length data)%nat /\
  (length (data_A_of data) + length (data_B_of data) =
   2 * Nat.min (length (index_where mask_A data))
               (length (index_where mask_B data)))%nat /\
  ((length (data_A_of data) + length (data_B_of data) = length data)%nat <->
   length (index_where mask_A data) = length (index_where mask_B data)).
Proof.
  intros Hgen. rewrite length_data_A_of, length_data_B_of.
  pose proof (masks_length_eq data Hgen). lia.
Qed.

(** C4. The balanced subsets keep the order of data: data_A is a prefix of
    the rows of data that pass the inside filter, data_B a prefix of those
    that pass the outside filter, each filter returns, as a subsequence of
    data, the rows that pass it, and each prefix has the length of the
    smaller class. *)
Theorem balanced_classes_keep_order (data : list point) :
  data_A_of data `prefix_of` index_where mask_A data /\
  data_B_of data `prefix_of` index_where mask_B data /\
  index_where mask_A data `sublist_of` data /\
  index_where mask_B data `sublist_of` data /\
  (forall p, In p (index_where mask_A data) <-> In p data /\ mask_A p = true) /\
  (forall p, In p (index_where mask_B data) <-> In p data /\ mask_B p = true) /\
  data_A_of data `sublist_of` data /\
  data_B_of data `sublist_of` data /\
  length (data_A_of data) =
    Nat.min (length (index_where mask_A data))
            (length (index_where mask_B data)) /\
  length (data_B_of data) =
    Nat.min (length (index_where mask_A data))
            (length (index_where mask_B data)).
Proof.
  assert (HA : data_A_of data `prefix_of` index_where mask_A data)
    by (rewrite data_A_of_eq; apply prefix_take).
  assert (HB : data_B_of data `prefix_of` index_where mask_B data)
    by (rewrite data_B_of_eq; apply prefix_take).
  split; [exact HA|]. split; [exact HB|].
  split; [apply index_where_sublist|]. split; [apply index_where_sublist|].
  split; [intros p; apply index_where_In|].
  split; [intros p; apply index_where_In|].
  repeat split.
  - rewrite data_A_of_eq.
    etrans; [apply sublist_take|apply index_where_sublist].
  - rewrite data_B_of_eq.
    etrans; [apply sublist_take|apply index_where_sublist].
  - apply length_data_A_of.
  - apply length_data_B_of.
Qed.

(** C9. When one of the two classes is empty before truncation (the circle
    captures no row, or every row), both balanced subsets are empty. *)
Theorem degenerate_classes_both_empty (data : list point) :
  index_where mask_A data = [] \/ index_where mask_B data = [] \/
  length (index_where mask_A data) = length data ->
  data_A_of data = [] /\ data_B_of data = [].
Proof.
  intros H.
  assert (Hmin : Nat.min (length (index_where mask_A data))
                         (length (index_where mask_B data)) = 0%nat).
  { destruct H as [->| [->|H]]; simpl; [done|lia|].
    pose proof (masks_length_le data). lia. }
  rewrite data_A_of_eq, data_B_of_eq, Hmin. done.
Qed.

(** C10. The probes of lines 63-64 lie on either side of the class
    boundary.  In exact rational arithmetic a = (0.5,0.5) is at squared
    distance 0 < 9/100 from the centre and b = (0.75,0.75) at squared
    distance 1/8 >= 9/100; the binary64 computation of lines 14-15 gives
    the same two values and puts a under the A mask and b under the B
    mask. *)
Theorem probes_straddle_threshold :
  Qeq (F64.to_Q F64.c_0_5) (1 # 2) /\
  Qeq (F64.to_Q F64.c_0_75) (3 # 4) /\
  Qeq (sq_dist_Q (F64.to_Q (fst probe_a)) (F64.to_Q (snd probe_a))) 0 /\
  Qlt (sq_dist_Q (F64.to_Q (fst probe_a)) (F64.to_Q (snd probe_a)))
      threshold_Q /\
  Qeq (sq_dist_Q (F64.to_Q (fst probe_b)) (F64.to_Q (snd probe_b))) (1 # 8) /\
  Qle threshold_Q
      (sq_dist_Q (F64.to_Q (fst probe_b)) (F64.to_Q (snd probe_b))) /\
  sq_dist probe_a = F64.zero /\
  sq_dist probe_b = F64.c_0_125 /\
  Qeq (F64.to_Q F64.c_0_125) (1 # 8) /\
  mask_A probe_a = true /\ mask_B probe_a = false /\
  mask_A probe_b = false /\ mask_B probe_b = true.
Proof. repeat split; by vm_compute. Qed.

(** The hypotheses of C3 and C9 are met by concrete arrays. *)
Lemma balanced_total_size_witness :
  Forall (fun p => no_nan p = true) three_rows /\
  (length (data_A_of three_rows) + length (data_B_of three_rows)
   <= length three_rows)%nat /\
  (length (data_A_of three_rows) + length (data_B_of three_rows) =
   2 * Nat.min (length (index_where mask_A three_rows))
               (length (index_where mask_B three_rows)))%nat /\
  ((length (data_A_of three_rows) + length (data_B_of three_rows)
    = length three_rows)%nat <->
   length (index_where mask_A three_rows)
   = length (index_where mask_B three_rows)).
Proof.
  assert (H : Forall (fun p => no_nan p = true) three_rows)
    by (repeat constructor).
  split; [exact H|]. exact (balanced_total_size three_rows H).
Defined.

Lemma degenerate_classes_both_empty_witness :
  index_where mask_B [probe_a] = [] /\
  data_A_of [probe_a] = [] /\ data_B_of [probe_a] = [].
Proof.
  split; [by vm_compute|].
  apply (degenerate_classes_both_empty [probe_a]).
  right; left. by vm_compute.
Defined.

(** ** Buffers and views *)

Lemma alloc_subseteq h v : h ⊆ (alloc h v).1.
Proof. simpl. apply insert_subseteq, not_elem_of_dom, is_fresh. Qed.

Lemma alloc_lookup h v : (alloc h v).1 !! buf (alloc h v).2 = Some v.
Proof. simpl. apply lookup_insert_eq. Qed.

Lemma alloc_read h v : read (alloc h v).1 (alloc h v).2 = v.
Proof.
  unfold read. rewrite alloc_lookup. simpl. by apply take_ge.
Qed.

Lemma read_weaken h h' a : h ⊆ h' -> live h a -> read h' a = read h a.
Proof.
  intros Hsub [v Hv]. unfold read.
  by rewrite Hv, (lookup_weaken h h' _ _ Hv Hsub).
Qed.

Lemma read_slice h a k : read h (slice a k) = take k (read h a).
Proof. unfold read, slice. simpl. by rewrite take_take. Qed.

(** ** Every step only adds buffers *)

Section Frame.

Variable uniform : nat -> nat -> point.
Variable train_result : list call -> F64.t.
Variable ask_result : list call -> string -> list F64.t.

Lemma grows_ret {A} (x : A) : grows (mret x).
Proof. intros w. reflexivity. Qed.

Lemma grows_bind {A B} (m : M A) (f : A -> M B) :
  grows m -> (forall x, grows (f x)) -> grows (m ≫= f).
Proof.
  intros Hm Hf w. unfold exec, mbind, M_bind.
  specialize (Hm w). unfold exec in Hm.
  destruct (m w) as [x w'] eqn:E. simpl in Hm.
  etrans; [exact Hm|]. apply (Hf x w').
Qed.

Lemma grows_emit c : grows (emit c).
Proof. intros w. reflexivity. Qed.

Lemma grows_np_read a : grows (np_read a).
Proof. intros w. reflexivity. Qed.

Lemma grows_np_new v : grows (np_new v).
Proof. intros w. apply alloc_subseteq. Qed.

Lemma grows_ask f : grows (ask ask_result f).
Proof. intros w. reflexivity. Qed.

Lemma grows_train n : grows (train train_result n).
Proof. intros w. reflexivity. Qed.

Lemma grows_np_random_uniform_f32 n :
  grows (np_random_uniform_f32 uniform n).
Proof. intros w. apply alloc_subseteq. Qed.

Lemma grows_np_index_where mask a : grows (np_index_where mask a).
Proof.
  apply grows_bind; [apply grows_np_read|intros v; apply grows_np_new].
Qed.

Lemma grows_variable s a : grows (variable s a).
Proof.
  apply grows_bind; [apply grows_np_read|intros v; apply grows_emit].
Qed.

Lemma grows_scatter a r : grows (scatter a r).
Proof.
  apply grows_bind; [apply grows_np_read|intros v; apply grows_emit].
Qed.

End Frame.

Create HintDb frame.
#[local] Hint Resolve grows_ret grows_emit grows_np_read grows_np_new
  grows_ask grows_train grows_np_random_uniform_f32 grows_np_index_where
  grows_variable grows_scatter : frame.

Ltac frame_steps :=
  repeat first
    [ apply grows_bind; [|intros ?]
    | solve [auto with frame] ].

Section FramePhases.

Variable uniform : nat -> nat -> point.
Variable train_result : list call -> F64.t.
Variable ask_result : list call -> string -> list F64.t.

Lemma grows_line_13 : grows (line_13 uniform).
Proof. apply grows_np_random_uniform_f32. Qed.

Lemma grows_lines_14_16 data : grows (lines_14_16 data).
Proof. unfold lines_14_16. frame_steps. Qed.

Lemma grows_lines_18_20 a b d : grows (lines_18_20 a b d).
Proof. unfold lines_18_20. frame_steps. Qed.

Lemma grows_lines_22_27 a b d : grows (lines_22_27 a b d).
Proof. unfold lines_22_27. frame_steps. Qed.

Lemma grows_lines_29_33 : grows lines_29_33.
Proof. unfold lines_29_33. frame_steps. Qed.

Lemma grows_lines_35_36 : grows (lines_35_36 train_result).
Proof. unfold lines_35_36. frame_steps. Qed.

Lemma grows_lines_38_47 d : grows (lines_38_47 ask_result d).
Proof. unfold lines_38_47. frame_steps. Qed.

Lemma grows_lines_49_61 : grows (lines_49_61 uniform ask_result).
Proof. unfold lines_49_61. frame_steps. Qed.

Lemma grows_lines_63_68 : grows (lines_63_68 ask_result).
Proof. unfold lines_63_68. frame_steps. Qed.

End FramePhases.

(** ** Lines 13-16 on the heap compute the value-level partition *)

Lemma line_13_spec uniform w :
  read (heap (exec (line_13 uniform) w)) (eval (line_13 uniform) w)
    = f32_rows uniform (draws w) nr_samples /\
  heap (exec (line_13 uniform) w) !! buf (eval (line_13 uniform) w)
    = Some (f32_rows uniform (draws w) nr_samples) /\
  len (eval (line_13 uniform) w)
    = length (f32_rows uniform (draws w) nr_samples) /\
  log (exec (line_13 uniform) w) = log w.
Proof.
  unfold line_13, np_random_uniform_f32, np_new, exec, eval. simpl.
  split; [|split; [|split]]; try reflexivity.
  - apply (alloc_read (heap w)).
  - apply lookup_insert_eq.
Qed.

Lemma lines_14_16_spec data w :
  live (heap w) data ->
  read (heap (exec (lines_14_16 data) w)) (eval (lines_14_16 data) w).1
    = data_A_of (read (heap w) data) /\
  read (heap (exec (lines_14_16 data) w)) (eval (lines_14_16 data) w).2
    = data_B_of (read (heap w) data) /\
  len (eval (lines_14_16 data) w).1 = length (data_A_of (read (heap w) data)) /\
  len (eval (lines_14_16 data) w).2 = length (data_B_of (read (heap w) data)) /\
  log (exec (lines_14_16 data) w) = log w /\
  draws (exec (lines_14_16 data) w) = draws w.
Proof.
  intros Hlive.
  unfold lines_14_16, np_index_where, np_read, np_new, exec, eval,
    mbind, M_bind, mret, M_ret, alloc.
  simpl. set (h := heap w). set (v := read h data).
  set (l1 := fresh (dom h)).
  set (h1 := <[l1 := index_where mask_A v]> h).
  assert (Hsub : h ⊆ h1) by apply insert_subseteq, not_elem_of_dom, is_fresh.
  rewrite (read_weaken h h1 data Hsub Hlive). fold v.
  set (l2 := fresh (dom h1)).
  assert (Hne : l2 <> l1).
  { intros Heq. apply (is_fresh (dom h1)). fold l2. rewrite Heq.
    apply elem_of_dom. exists (index_where mask_A v).
    apply lookup_insert_eq. }
  rewrite !read_slice. unfold read, len. simpl.
  rewrite lookup_insert_eq, (lookup_insert_ne _ l2 l1) by done.
  unfold h1. rewrite lookup_insert_eq. simpl.
  rewrite !firstn_all.
  rewrite data_A_of_eq, data_B_of_eq, !length_take.
  repeat split; try reflexivity; lia.
Qed.

(** C7. The filter-and-truncate step is a function of the rows of its input
    alone: run on two arrays that hold the same rows, in whatever worlds
    (other buffers, other addresses, other calls made so far), it produces
    data_A with the same rows and data_B with the same rows. *)
Theorem partition_deterministic (w1 w2 : world) (d1 d2 : ndarray) :
  live (heap w1) d1 -> live (heap w2) d2 ->
  read (heap w1) d1 = read (heap w2) d2 ->
  read (heap (exec (lines_14_16 d1) w1)) (eval (lines_14_16 d1) w1).1
  = read (heap (exec (lines_14_16 d2) w2)) (eval (lines_14_16 d2) w2).1 /\
  read (heap (exec (lines_14_16 d1) w1)) (eval (lines_14_16 d1) w1).2
  = read (heap (exec (lines_14_16 d2) w2)) (eval (lines_14_16 d2) w2).2.
Proof.
  intros H1 H2 Heq.
  destruct (lines_14_16_spec d1 w1 H1) as (A1 & B1 & _).
  destruct (lines_14_16_spec d2 w2 H2) as (A2 & B2 & _).
  rewrite A1, A2, B1, B2, Heq. done.
Qed.

Lemma partition_deterministic_witness :
  let d1 := {| buf := 0%nat; rows := 3%nat |} in
  let d2 := {| buf := 5%nat; rows := 3%nat |} in
  read (heap world_one) d1 = read (heap world_two) d2 /\
  read (heap (exec (lines_14_16 d1) world_one))
       (eval (lines_14_16 d1) world_one).1
  = read (heap (exec (lines_14_16 d2) world_two))
         (eval (lines_14_16 d2) world_two).1 /\
  read (heap (exec (lines_14_16 d1) world_one))
       (eval (lines_14_16 d1) world_one).2
  = read (heap (exec (lines_14_16 d2) world_two))
         (eval (lines_14_16 d2) world_two).2.
Proof.
  intros d1 d2.
  assert (Heq : read (heap world_one) d1 = read (heap world_two) d2)
    by (by vm_compute).
  split; [exact Heq|].
  apply (partition_deterministic world_one world_two d1 d2).
  - exists three_rows. by vm_compute.
  - exists three_rows. by vm_compute.
  - exact Heq.
Defined.

(** ** The sample array is never written *)

Lemma read_full h a v :
  h !! buf a = Some v -> rows a = length v -> read h a = v.
Proof. intros Hv Hr. unfold read. rewrite Hv, Hr. simpl. apply firstn_all. Qed.

Lemma grows_lookup {A} (m : M A) w l v :
  grows m -> heap w !! l = Some v -> heap (exec m w) !! l = Some v.
Proof. intros Hm Hv. eapply lookup_weaken; [exact Hv|apply Hm]. Qed.

Section Checkpoints.

Variable uniform : nat -> nat -> point.
Variable train_result : list call -> F64.t.
Variable ask_result : list call -> string -> list F64.t.

Lemma script_ends_at_last_checkpoint w0 :
  last (checkpoints uniform train_result ask_result
          (eval (line_13 uniform) w0) (exec (line_13 uniform) w0))
  = Some (exec (script uniform train_result ask_result) w0).
Proof.
  unfold script, after_line_13, checkpoints, exec, eval, mbind, M_bind.
  destruct (line_13 uniform w0) as [data w1]. cbn [fst snd].
  destruct (lines_14_16 data w1) as [[dA dB] w2]. cbn [fst snd].
  destruct (lines_18_20 dA dB data w2) as [[] w3]. cbn [fst snd].
  destruct (lines_22_27 dA dB data w3) as [[] w4]. cbn [fst snd].
  destruct (lines_29_33 w4) as [[] w5]. cbn [fst snd].
  destruct (lines_35_36 train_result w5) as [sat_level w6]. cbn [fst snd].
  destruct (lines_38_47 ask_result data w6) as [[] w7]. cbn [fst snd].
  destruct (lines_49_61 uniform ask_result w7) as [data_test w8]. cbn [fst snd].
  reflexivity.
Qed.

Lemma checkpoints_keep_buffer data w1 l v :
  heap w1 !! l = Some v ->
  Forall (fun w => heap w !! l = Some v)
         (checkpoints uniform train_result ask_result data w1).
Proof.
  intros H1. unfold checkpoints.
  pose proof (grows_lookup _ w1 l v (grows_lines_14_16 data) H1) as H2.
  unfold exec in H2.
  destruct (lines_14_16 data w1) as [[dA dB] w2]. cbn [fst snd] in H2.
  pose proof (grows_lookup _ _ l v (grows_lines_18_20 dA dB data) H2) as H3.
  pose proof (grows_lookup _ _ l v (grows_lines_22_27 dA dB data) H3) as H4.
  pose proof (grows_lookup _ _ l v grows_lines_29_33 H4) as H5.
  pose proof (grows_lookup _ _ l v (grows_lines_35_36 train_result) H5) as H6.
  pose proof (grows_lookup _ _ l v (grows_lines_38_47 ask_result data) H6)
    as H7.
  pose proof (grows_lookup _ _ l v (grows_lines_49_61 uniform ask_result) H7)
    as H8.
  pose proof (grows_lookup _ _ l v (grows_lines_63_68 ask_result) H8) as H9.
  repeat constructor; assumption.
Qed.

(** C8. The array data is produced once, by line 13, and no later step
    changes it: in the world after each of the steps that follow (the
    filtering and balancing of lines 14-16, the prints, the
    registrations, the axioms, training, the queries and plots on the
    training and test sets, the probes) the buffer of data still holds
    exactly the rows line 13 put there, and the last of these worlds is
    the one the script ends in. *)
Theorem data_never_modified (w0 : world) :
  Forall (fun w =>
            heap w !! buf (eval (line_13 uniform) w0)
              = Some (f32_rows uniform (draws w0) nr_samples) /\
            read (heap w) (eval (line_13 uniform) w0)
              = f32_rows uniform (draws w0) nr_samples)
         (checkpoints uniform train_result ask_result
            (eval (line_13 uniform) w0) (exec (line_13 uniform) w0)) /\
  last (checkpoints uniform train_result ask_result
          (eval (line_13 uniform) w0) (exec (line_13 uniform) w0))
  = Some (exec (script uniform train_result ask_result) w0) /\
  length (checkpoints uniform train_result ask_result
            (eval (line_13 uniform) w0) (exec (line_13 uniform) w0)) = 9%nat.
Proof.
  destruct (line_13_spec uniform w0) as (_ & Hbuf & Hlen & _).
  split; [|split].
  - eapply Forall_impl.
    + apply checkpoints_keep_buffer, Hbuf.
    + intros w Hw. split; [exact Hw|]. by apply read_full.
  - apply script_ends_at_last_checkpoint.
  - unfold checkpoints.
    by destruct (lines_14_16 _ _) as [[dA dB] w2].
Qed.

End Checkpoints.

(** ** The calls made to the wrapper *)

Lemma formulas_of_app l1 l2 :
  formulas_of (l1 ++ l2) = formulas_of l1 ++ formulas_of l2.
Proof. unfold formulas_of. apply omap_app. Qed.

Lemma before_axioms_app l f rest :
  formulas_of l = [] -> before_axioms (l ++ ltnw_formula f :: rest) = l.
Proof.
  induction l as [|c l IH]; simpl; [done|].
  destruct c; simpl; try discriminate; intros H; by rewrite (IH H).
Qed.

Section Quiet.

Variable uniform : nat -> nat -> point.
Variable train_result : list call -> F64.t.
Variable ask_result : list call -> string -> list F64.t.

Lemma quiet_ret {A} (x : A) : quiet (mret x).
Proof. intros w. exists []. by rewrite app_nil_r. Qed.

Lemma quiet_bind {A B} (m : M A) (f : A -> M B) :
  quiet m -> (forall x, quiet (f x)) -> quiet (m ≫= f).
Proof.
  intros Hm Hf w. unfold exec, mbind, M_bind.
  destruct (Hm w) as (c1 & E1 & F1). unfold exec in E1.
  destruct (m w) as [x w'] eqn:E. simpl in E1.
  destruct (Hf x w') as (c2 & E2 & F2).
  exists (c1 ++ c2). split.
  - unfold exec in E2. by rewrite E2, E1, app_assoc.
  - by rewrite formulas_of_app, F1, F2.
Qed.

Lemma quiet_emit c : is_formula c = false -> quiet (emit c).
Proof. intros Hc w. exists [c]. split; [done|]. by destruct c. Qed.

Lemma quiet_np_read a : quiet (np_read a).
Proof. intros w. exists []. by rewrite app_nil_r. Qed.

Lemma quiet_np_new v : quiet (np_new v).
Proof. intros w. exists []. by rewrite app_nil_r. Qed.

Lemma quiet_np_random_uniform_f32 n :
  quiet (np_random_uniform_f32 uniform n).
Proof. intros w. exists []. by rewrite app_nil_r. Qed.

Lemma quiet_ask f : quiet (ask ask_result f).
Proof. intros w. by exists [ltnw_ask f]. Qed.

Lemma quiet_train n : quiet (train train_result n).
Proof. intros w. by exists [ltnw_train n]. Qed.

Lemma quiet_variable s a : quiet (variable s a).
Proof.
  apply quiet_bind; [apply quiet_np_read|intros v; by apply quiet_emit].
Qed.

Lemma quiet_scatter a r : quiet (scatter a r).
Proof.
  apply quiet_bind; [apply quiet_np_read|intros v; by apply quiet_emit].
Qed.

End Quiet.

Create HintDb quiet.
#[local] Hint Resolve quiet_ret quiet_np_read quiet_np_new
  quiet_np_random_uniform_f32 quiet_ask quiet_train quiet_variable
  quiet_scatter : quiet.

Ltac quiet_steps :=
  repeat first
    [ apply quiet_bind; [|intros ?]
    | apply quiet_emit; reflexivity
    | solve [auto with quiet] ].

Section Log.

Variable uniform : nat -> nat -> point.
Variable train_result : list call -> F64.t.
Variable ask_result : list call -> string -> list F64.t.

Lemma quiet_lines_35_36 : quiet (lines_35_36 train_result).
Proof. unfold lines_35_36. quiet_steps. Qed.

Lemma quiet_lines_38_47 d : quiet (lines_38_47 ask_result d).
Proof. unfold lines_38_47. quiet_steps. Qed.

Lemma quiet_lines_49_61 : quiet (lines_49_61 uniform ask_result).
Proof. unfold lines_49_61. quiet_steps. Qed.

Lemma quiet_lines_63_68 : quiet (lines_63_68 ask_result).
Proof. unfold lines_63_68. quiet_steps. Qed.

Lemma lines_18_20_effect a b d w :
  heap (exec (lines_18_20 a b d) w) = heap w /\
  log (exec (lines_18_20 a b d) w) =
    log w ++ [print_len "# samples data_A: %s" (len a);
              print_len "# samples data_B: %s" (len b);
              print_len "# samples data: %s" (len d)].
Proof. split; [done|]. simpl. by rewrite <- !app_assoc. Qed.

Lemma lines_22_27_effect a b d w :
  heap (exec (lines_22_27 a b d) w) = heap w /\
  log (exec (lines_22_27 a b d) w) =
    log w ++ [ltnw_predicate "A" 2; ltnw_predicate "B" 2;
              ltnw_variable "?data_A" (read (heap w) a);
              ltnw_variable "?data_B" (read (heap w) b);
              ltnw_variable "?data" (read (heap w) d)].
Proof. split; [done|]. simpl. by rewrite <- !app_assoc. Qed.

Lemma lines_29_33_effect w :
  heap (exec lines_29_33 w) = heap w /\
  log (exec lines_29_33 w) =
    log w ++ [ltnw_formula "forall ?data_A: A(?data_A)";
              ltnw_formula "forall ?data_B: B(?data_B)";
              ltnw_formula "forall ?data: A(?data) -> ~B(?data)";
              ltnw_formula "forall ?data: ~B(?data) -> A(?data)"].
Proof. split; [done|]. simpl. by rewrite <- !app_assoc. Qed.

End Log.

Section Registrations.

Variable uniform : nat -> nat -> point.
Variable train_result : list call -> F64.t.
Variable ask_result : list call -> string -> list F64.t.

(** The whole log of a run: the prints, the registrations with the arrays
    they are fed, the four axioms, and then calls that are not
    [ltnw.formula]. *)
Lemma script_log w0 :
  exists rest,
    log (exec (script uniform train_result ask_result) w0) =
      (log w0 ++
       [print_len "# samples data_A: %s"
          (length (data_A_of (f32_rows uniform (draws w0) nr_samples)));
        print_len "# samples data_B: %s"
          (length (data_B_of (f32_rows uniform (draws w0) nr_samples)));
        print_len "# samples data: %s"
          (length (f32_rows uniform (draws w0) nr_samples));
        ltnw_predicate "A" 2; ltnw_predicate "B" 2;
        ltnw_variable "?data_A"
          (data_A_of (f32_rows uniform (draws w0) nr_samples));
        ltnw_variable "?data_B"
          (data_B_of (f32_rows uniform (draws w0) nr_samples));
        ltnw_variable "?data" (f32_rows uniform (draws w0) nr_samples)]) ++
      [ltnw_formula "forall ?data_A: A(?data_A)";
       ltnw_formula "forall ?data_B: B(?data_B)";
       ltnw_formula "forall ?data: A(?data) -> ~B(?data)";
       ltnw_formula "forall ?data: ~B(?data) -> A(?data)"] ++ rest /\
    formulas_of rest = [].
Proof.
  set (rows := f32_rows uniform (draws w0) nr_samples).
  destruct (line_13_spec uniform w0) as (_ & Hbuf & Hlen & Hlog1).
  fold rows in Hbuf, Hlen.
  pose proof (grows_lines_14_16 (eval (line_13 uniform) w0)
                (exec (line_13 uniform) w0)) as Hg.
  assert (Hlive : live (heap (exec (line_13 uniform) w0))
                       (eval (line_13 uniform) w0)) by by exists rows.
  destruct (lines_14_16_spec _ _ Hlive) as (HA & HB & HlA & HlB & Hlog2 & _).
  rewrite (read_full _ _ rows Hbuf Hlen) in HA, HB, HlA, HlB.
  unfold script, after_line_13, exec, eval, mbind, M_bind in *.
  destruct (line_13 uniform w0) as [data w1]. cbn [fst snd] in *.
  destruct (lines_14_16 data w1) as [[dA dB] w2]. cbn [fst snd] in *.
  destruct (lines_18_20_effect dA dB data w2) as [Hh3 Hlog3].
  unfold exec in Hh3, Hlog3.
  destruct (lines_18_20 dA dB data w2) as [[] w3]. cbn [fst snd] in *.
  destruct (lines_22_27_effect dA dB data w3) as [Hh4 Hlog4].
  unfold exec in Hh4, Hlog4.
  destruct (lines_22_27 dA dB data w3) as [[] w4]. cbn [fst snd] in *.
  destruct (lines_29_33_effect w4) as [Hh5 Hlog5].
  unfold exec in Hh5, Hlog5.
  destruct (lines_29_33 w4) as [[] w5]. cbn [fst snd] in *.
  destruct (quiet_lines_35_36 train_result w5) as (c6 & Hlog6 & F6).
  unfold exec in Hlog6.
  destruct (lines_35_36 train_result w5) as [sat_level w6]. cbn [fst snd] in *.
  destruct (quiet_lines_38_47 ask_result data w6) as (c7 & Hlog7 & F7).
  unfold exec in Hlog7.
  destruct (lines_38_47 ask_result data w6) as [[] w7]. cbn [fst snd] in *.
  destruct (quiet_lines_49_61 uniform ask_result w7) as (c8 & Hlog8 & F8).
  unfold exec in Hlog8.
  destruct (lines_49_61 uniform ask_result w7) as [data_test w8]. cbn [fst snd] in *.
  destruct (quiet_lines_63_68 ask_result w8) as (c9 & Hlog9 & F9).
  unfold exec in Hlog9.
  exists (c6 ++ c7 ++ c8 ++ c9). split.
  - rewrite Hlog9, Hlog8, Hlog7, Hlog6, Hlog5, Hlog4, Hlog3, Hlog2, Hlog1.
    rewrite Hh3, HA, HB, HlA, HlB.
    rewrite (read_full (heap w2) data rows).
    + rewrite Hlen. by rewrite <- !app_assoc.
    + by eapply lookup_weaken.
    + exact Hlen.
  - by rewrite !formulas_of_app, F6, F7, F8, F9.
Qed.

(** C5. In a run of the script, the calls made before the first axiom
    register exactly two predicates, A and B, each over the two features
    of one point (one argument), and exactly three variables, ?data_A,
    ?data_B and ?data, bound to the balanced subsets and to the sample
    array; the call that follows them is the first axiom. *)
Theorem registrations_before_axioms :
  predicates_of
    (before_axioms
       (log (exec (script uniform train_result ask_result) initial_world)))
  = [("A", point_width); ("B", point_width)] /\
  variables_of
    (before_axioms
       (log (exec (script uniform train_result ask_result) initial_world)))
  = [("?data_A", data_A_of (f32_rows uniform 0 nr_samples));
     ("?data_B", data_B_of (f32_rows uniform 0 nr_samples));
     ("?data", f32_rows uniform 0 nr_samples)] /\
  formulas_of
    (before_axioms
       (log (exec (script uniform train_result ask_result) initial_world)))
  = [] /\
  exists rest,
    log (exec (script uniform train_result ask_result) initial_world)
    = before_axioms
        (log (exec (script uniform train_result ask_result) initial_world))
      ++ ltnw_formula "forall ?data_A: A(?data_A)" :: rest.
Proof.
  destruct (script_log initial_world) as (rest & -> & _).
  change (draws initial_world) with 0%nat.
  generalize (f32_rows uniform 0 nr_samples). intros rows.
  change (log initial_world) with (@nil call).
  rewrite app_nil_l. simpl app at 2 4 6 8.
  rewrite !before_axioms_app by reflexivity.
  repeat split; try reflexivity. eexists. reflexivity.
Qed.

(** C6. A run of the script states exactly four axioms, in this order:
    A over ?data_A, B over ?data_B, A implies not B over ?data, and not B
    implies A over ?data; no other formula is registered. *)
Theorem four_axioms_in_order :
  formulas_of
    (log (exec (script uniform train_result ask_result) initial_world))
  = ["forall ?data_A: A(?data_A)";
     "forall ?data_B: B(?data_B)";
     "forall ?data: A(?data) -> ~B(?data)";
     "forall ?data: ~B(?data) -> A(?data)"].
Proof.
  destruct (script_log initial_world) as (rest & -> & Hrest).
  generalize (f32_rows uniform (draws initial_world) nr_samples).
  intros rows.
  rewrite !formulas_of_app, Hrest. reflexivity.
Qed.

End Registrations.

(** * Further properties of the partitioner *)

(** ** NaN and infinite coordinates *)

Lemma add_nan_r x : F64.add x S754_nan = S754_nan.
Proof. by destruct x. Qed.

Lemma sq_dist_nan_iff p : F64.is_nan (sq_dist p) = negb (no_nan p).
Proof.
  destruct (no_nan p) eqn:E; simpl.
  - by apply sq_dist_not_nan.
  - destruct p as [x y]. unfold no_nan in E. simpl in E.
    apply andb_false_iff in E as [E|E]; apply negb_false_iff in E.
    + destruct x; try discriminate. reflexivity.
    + destruct y; try discriminate. unfold sq_dist. simpl.
      change (F64.square (F64.sub S754_nan F64.c_0_5)) with S754_nan.
      by rewrite add_nan_r.
Qed.

Lemma masks_of_nan p :
  F64.is_nan (sq_dist p) = true -> mask_A p = false /\ mask_B p = false.
Proof.
  unfold mask_A, mask_B. destruct (sq_dist p); try discriminate. done.
Qed.

(** X1. A row lands in exactly one of the two filters when none of its
    coordinates is NaN, and in neither when one is: the masks are never
    both set, and one of them is set exactly for the rows without NaN. *)
Theorem masks_classify_rows (p : point) :
  mask_A p && mask_B p = false /\
  xorb (mask_A p) (mask_B p) = no_nan p.
Proof.
  destruct (no_nan p) eqn:E.
  - rewrite (mask_B_complement p (sq_dist_not_nan p E)).
    by destruct (mask_A p).
  - assert (H : F64.is_nan (sq_dist p) = true)
      by (by rewrite sq_dist_nan_iff, E).
    destruct (masks_of_nan p H) as [-> ->]. done.
Qed.

Lemma sq_dist_of_infinity x y :
  is_infinity x = true -> F64.is_nan y = false ->
  sq_dist (x, y) = S754_infinity false.
Proof.
  intros Hx Hy. destruct x as [|s| |]; try discriminate.
  unfold sq_dist. simpl fst. simpl snd.
  pose proof (square_above_minus_inf _
                (sub_centre_not_nan _ (to_f64_not_nan y Hy))) as Hb.
  change (F64.square (F64.sub (F32.to_f64 (S754_infinity s)) F64.c_0_5))
    with (S754_infinity (xorb s s)).
  rewrite xorb_nilpotent.
  destruct (F64.square _) as [sb|sb| |sb mb eb]; try done.
  by destruct sb.
Qed.

(** ** The two columns are treated alike *)

Lemma SFadd_comm prec emax x y : SFadd prec emax x y = SFadd prec emax y x.
Proof.
  destruct x as [sx|sx| |sx mx ex], y as [sy|sy| |sy my ey]; simpl;
    try done; try (by destruct sx, sy).
  by rewrite (Z.min_comm ey ex), Z.add_comm.
Qed.

Lemma sq_dist_swap p : sq_dist (swap_columns p) = sq_dist p.
Proof. unfold sq_dist, swap_columns. simpl. apply SFadd_comm. Qed.

Lemma mask_A_swap p : mask_A (swap_columns p) = mask_A p.
Proof. unfold mask_A. by rewrite sq_dist_swap. Qed.

Lemma mask_B_swap p : mask_B (swap_columns p) = mask_B p.
Proof. unfold mask_B. by rewrite sq_dist_swap. Qed.

Lemma index_where_fmap (f : point -> point) mask data :
  (forall p, mask (f p) = mask p) ->
  index_where mask (f <$> data) = f <$> index_where mask data.
Proof.
  intros Hf. unfold index_where.
  induction data as [|p data IH]; [done|].
  rewrite fmap_cons. cbn [List.filter]. rewrite Hf, IH.
  by destruct (mask p).
Qed.

(** X2. An infinite coordinate sends a row without NaN to class B: its
    computed squared distance is plus infinity, whichever column holds the
    infinity and whatever its sign. *)
Theorem infinite_rows_land_in_B (p : point) :
  no_nan p = true ->
  is_infinity (fst p) || is_infinity (snd p) = true ->
  sq_dist p = S754_infinity false /\ mask_A p = false /\ mask_B p = true.
Proof.
  intros Hn Hinf. destruct p as [x y]. unfold no_nan in Hn. simpl in *.
  apply andb_prop in Hn as [Hx Hy].
  apply negb_true_iff in Hx. apply negb_true_iff in Hy.
  assert (Hd : sq_dist (x, y) = S754_infinity false).
  { apply orb_prop in Hinf as [H|H].
    - by apply sq_dist_of_infinity.
    - rewrite <- (sq_dist_swap (x, y)). by apply sq_dist_of_infinity. }
  unfold mask_A, mask_B. by rewrite Hd.
Qed.

Lemma infinite_rows_land_in_B_witness :
  sq_dist (S754_infinity true, F64.c_0_5) = S754_infinity false /\
  mask_A (S754_infinity true, F64.c_0_5) = false /\
  mask_B (S754_infinity true, F64.c_0_5) = true.
Proof.
  apply (infinite_rows_land_in_B (S754_infinity true, F64.c_0_5));
    reflexivity.
Defined.

(** X3. Exchanging the two columns of every row exchanges them in both
    balanced classes and changes nothing else: the same rows are selected,
    in the same order. *)
Theorem partition_commutes_with_column_swap (data : list point) :
  data_A_of (swap_columns <$> data) = swap_columns <$> data_A_of data /\
  data_B_of (swap_columns <$> data) = swap_columns <$> data_B_of data.
Proof.
  rewrite !data_A_of_eq, !data_B_of_eq.
  rewrite (index_where_fmap swap_columns mask_A data mask_A_swap).
  rewrite (index_where_fmap swap_columns mask_B data mask_B_swap).
  rewrite !length_fmap, !fmap_take. done.
Qed.

(** ** What the filters keep and what the truncation drops *)

(** X4. Before truncation nothing is lost or duplicated: the rows of data
    are, up to order, the rows that pass the A filter, those that pass the
    B filter, and the rows with a NaN coordinate, which pass neither. *)
Theorem filters_split_data (data : list point) :
  Permutation data
    (index_where mask_A data ++ index_where mask_B data ++ nan_rows data).
Proof.
  unfold index_where, nan_rows.
  induction data as [|p data IH]; simpl; [done|].
  destruct (masks_classify_rows p) as [Hand Hxor].
  destruct (mask_A p) eqn:HA, (mask_B p) eqn:HB, (no_nan p) eqn:HN;
    try discriminate; simpl.
  - by apply perm_skip.
  - by apply Permutation_cons_app.
  - rewrite app_assoc. apply Permutation_cons_app. by rewrite <- app_assoc.
Qed.

(** X5. The truncation of line 16 leaves the smaller class whole and cuts
    the other one down to the same length by dropping its last rows. *)
Theorem truncation_cuts_only_the_larger_class (data : list point) :
  (data_A_of data = index_where mask_A data /\
   data_B_of data =
     take (length (index_where mask_A data)) (index_where mask_B data)) \/
  (data_B_of data = index_where mask_B data /\
   data_A_of data =
     take (length (index_where mask_B data)) (index_where mask_A data)).
Proof.
  rewrite data_A_of_eq, data_B_of_eq.
  destruct (Nat.le_ge_cases (length (index_where mask_A data))
                            (length (index_where mask_B data))) as [H|H].
  - left. rewrite Nat.min_l by done. split; [by apply take_ge|done].
  - right. rewrite Nat.min_r by done. split; [by apply take_ge|done].
Qed.

Lemma Forall_data_A_of data : Forall (fun p => mask_A p = true) (data_A_of data).
Proof.
  apply Forall_forall. intros p Hp%list_elem_of_In.
  rewrite data_A_of_eq in Hp. by apply In_take, index_where_In in Hp as [_ ?].
Qed.

Lemma Forall_data_B_of data : Forall (fun p => mask_B p = true) (data_B_of data).
Proof.
  apply Forall_forall. intros p Hp%list_elem_of_In.
  rewrite data_B_of_eq in Hp. by apply In_take, index_where_In in Hp as [_ ?].
Qed.

Lemma mask_B_A_disjoint p : mask_B p = true -> mask_A p = false.
Proof.
  intros HB. destruct (mask_A p) eqn:HA; [|done].
  rewrite (mask_A_B_disjoint p HA) in HB. discriminate.
Qed.

Lemma filter_all (f : point -> bool) l :
  Forall (fun p => f p = true) l -> List.filter f l = l.
Proof. induction 1 as [|p l Hp _ IH]; simpl; [done|]. by rewrite Hp, IH. Qed.

Lemma filter_none (f : point -> bool) l :
  Forall (fun p => f p = false) l -> List.filter f l = [].
Proof. induction 1 as [|p l Hp _ IH]; simpl; [done|]. by rewrite Hp, IH. Qed.

(** X6. Balanced data is a fixed point: partitioning the concatenation of
    the two balanced classes returns the same two classes. *)
Theorem partition_of_balanced_classes (data : list point) :
  partition (data_A_of data ++ data_B_of data)
  = (data_A_of data, data_B_of data).
Proof.
  pose proof (Forall_data_A_of data) as HA.
  pose proof (Forall_data_B_of data) as HB.
  pose proof (balanced_classes_same_length data) as Hlen.
  unfold partition, balance, index_where.
  rewrite !List.filter_app.
  rewrite (filter_all mask_A _ HA), (filter_all mask_B _ HB).
  rewrite (filter_none mask_A (data_B_of data)),
          (filter_none mask_B (data_A_of data)).
  - rewrite app_nil_r. simpl. rewrite Hlen, Nat.min_id.
    f_equal; [rewrite <- Hlen|]; by apply take_ge.
  - eapply Forall_impl; [exact HA|]. intros p. apply mask_A_B_disjoint.
  - eapply Forall_impl; [exact HB|]. intros p. apply mask_B_A_disjoint.
Qed.

(** X7. The labels the data are built from satisfy what the four axioms of
    lines 29-33 say of them: every row of data_A passes the A mask, every
    row of data_B passes the B mask, no row of data passes both, and, for
    data without a NaN coordinate, every row of data that fails B passes
    A. *)
Theorem geometric_labels_satisfy_axioms (data : list point) :
  Forall (fun p => mask_A p = true) (data_A_of data) /\
  Forall (fun p => mask_B p = true) (data_B_of data) /\
  Forall (fun p => mask_A p = true -> mask_B p = false) data /\
  (Forall (fun p => no_nan p = true) data ->
   Forall (fun p => mask_B p = false -> mask_A p = true) data).
Proof.
  split; [apply Forall_data_A_of|]. split; [apply Forall_data_B_of|].
  split.
  - apply Forall_forall. intros p _. apply mask_A_B_disjoint.
  - intros Hn. eapply Forall_impl; [exact Hn|]. intros p Hp HB.
    rewrite (mask_B_complement p (sq_dist_not_nan p Hp)) in HB.
    by destruct (mask_A p).
Qed.

Lemma geometric_labels_satisfy_axioms_witness :
  Forall (fun p => no_nan p = true) three_rows /\
  Forall (fun p => mask_B p = false -> mask_A p = true) three_rows.
Proof.
  assert (H : Forall (fun p => no_nan p = true) three_rows)
    by (repeat constructor).
  split; [exact H|].
  exact (proj2 (proj2 (proj2 (geometric_labels_satisfy_axioms three_rows))) H).
Defined.

(** * Further properties of the script *)

(** ** The arrays of line 16 *)

(** X8. The balanced arrays share no buffer with data or with each other:
    advanced indexing copied the selected rows into two buffers that did
    not exist before, and the slices of line 16 are views of those copies,
    not of data. *)
Theorem balanced_arrays_own_their_buffers (data : ndarray) (w : world) :
  live (heap w) data ->
  buf (eval (lines_14_16 data) w).1 <> buf data /\
  buf (eval (lines_14_16 data) w).2 <> buf data /\
  buf (eval (lines_14_16 data) w).1 <> buf (eval (lines_14_16 data) w).2 /\
  heap w !! buf (eval (lines_14_16 data) w).1 = None /\
  heap w !! buf (eval (lines_14_16 data) w).2 = None.
Proof.
  intros [v Hv].
  unfold lines_14_16, np_index_where, np_read, np_new, exec, eval,
    mbind, M_bind, mret, M_ret, alloc.
  simpl. set (h := heap w) in *. set (r := read h data).
  set (l1 := fresh (dom h)).
  set (h1 := <[l1 := index_where mask_A r]> h).
  set (l2 := fresh (dom h1)).
  assert (H1 : h !! l1 = None) by apply not_elem_of_dom, is_fresh.
  assert (H2 : h1 !! l2 = None) by apply not_elem_of_dom, is_fresh.
  assert (Hne : l1 <> l2).
  { intros Heq. rewrite <- Heq in H2. unfold h1 in H2.
    by rewrite lookup_insert_eq in H2. }
  assert (H3 : h !! l2 = None).
  { unfold h1 in H2. by rewrite lookup_insert_ne in H2. }
  repeat split; try done; intros Heq; congruence.
Qed.

Lemma balanced_arrays_own_their_buffers_witness :
  let d := {| buf := 0%nat; rows := 3%nat |} in
  buf (eval (lines_14_16 d) world_one).1 <> buf d /\
  buf (eval (lines_14_16 d) world_one).2 <> buf d /\
  buf (eval (lines_14_16 d) world_one).1
    <> buf (eval (lines_14_16 d) world_one).2 /\
  heap world_one !! buf (eval (lines_14_16 d) world_one).1 = None /\
  heap world_one !! buf (eval (lines_14_16 d) world_one).2 = None.
Proof.
  intros d. apply (balanced_arrays_own_their_buffers d world_one).
  exists three_rows. by vm_compute.
Defined.

(** ** The complete log of a run *)

Section FullLog.

Variable uniform : nat -> nat -> point.
Variable train_result : list call -> F64.t.
Variable ask_result : list call -> string -> list F64.t.

Lemma lines_35_36_effect w :
  heap (exec (lines_35_36 train_result) w) = heap w /\
  draws (exec (lines_35_36 train_result) w) = draws w /\
  log (exec (lines_35_36 train_result) w) =
    log w ++ [ltnw_initialize_knowledgebase F64.c_0_1;
              ltnw_train max_iterations].
Proof. repeat split. simpl. by rewrite <- !app_assoc. Qed.

Lemma lines_38_47_effect d w :
  exists c1 c2,
    heap (exec (lines_38_47 ask_result d) w) = heap w /\
    draws (exec (lines_38_47 ask_result d) w) = draws w /\
    log (exec (lines_38_47 ask_result d) w) =
      log w ++ [plt_figure 10 8;
                ltnw_ask "A(?data)"; plt_subplot 2 2 1;
                plt_title "A(x) - training";
                plt_scatter (fst <$> read (heap w) d)
                            (snd <$> read (heap w) d) c1;
                ltnw_ask "B(?data)"; plt_subplot 2 2 2;
                plt_title "B(x) - training";
                plt_scatter (fst <$> read (heap w) d)
                            (snd <$> read (heap w) d) c2].
Proof.
  do 2 eexists. repeat split. simpl. rewrite <- !app_assoc. reflexivity.
Qed.

Lemma lines_49_61_effect w :
  exists c3 c4,
    heap w ⊆ heap (exec (lines_49_61 uniform ask_result) w) /\
    log (exec (lines_49_61 uniform ask_result) w) =
      log w ++ [ltnw_variable "?data_test"
                  (f32_rows uniform (draws w) nr_samples);
                ltnw_ask "A(?data_test)"; plt_subplot 2 2 3;
                plt_title "A(x) - test";
                plt_scatter (fst <$> f32_rows uniform (draws w) nr_samples)
                            (snd <$> f32_rows uniform (draws w) nr_samples)
                            c3;
                ltnw_ask "B(?data_test)"; plt_subplot 2 2 4;
                plt_scatter (fst <$> f32_rows uniform (draws w) nr_samples)
                            (snd <$> f32_rows uniform (draws w) nr_samples)
                            c4;
                plt_title "B(x) -test"; plt_show].
Proof.
  pose proof (grows_lines_49_61 uniform ask_result w) as Hg.
  unfold lines_49_61, exec, mbind, M_bind, np_random_uniform_f32, np_new,
    variable, scatter, emit, ask, np_read, mret, M_ret, alloc in *.
  revert Hg. generalize (f32_rows uniform (draws w) nr_samples). intros t Hg.
  do 2 eexists. split; [exact Hg|]. clear Hg.
  simpl. unfold read. simpl.
  rewrite lookup_insert_eq. simpl. rewrite firstn_all.
  rewrite <- !app_assoc. reflexivity.
Qed.

Lemma lines_63_68_effect w :
  exists r1 r2 r3 r4,
    heap (exec (lines_63_68 ask_result) w) = heap w /\
    log (exec (lines_63_68 ask_result) w) =
      log w ++ [ltnw_constant "a" [F64.c_0_5; F64.c_0_5];
                ltnw_constant "b" [F64.c_0_75; F64.c_0_75];
                ltnw_ask "A(a)"; print_result "a is in A: %s" r1;
                ltnw_ask "A(b)"; print_result "b is in A: %s" r2;
                ltnw_ask "B(a)"; print_result "a is in B: %s" r3;
                ltnw_ask "B(b)"; print_result "b is in B: %s" r4].
Proof.
  do 4 eexists. repeat split. simpl. rewrite <- !app_assoc. reflexivity.
Qed.

End FullLog.

Section Run.

Variable uniform : nat -> nat -> point.
Variable train_result : list call -> F64.t.
Variable ask_result : list call -> string -> list F64.t.

Lemma draws_line_13 w : draws (exec (line_13 uniform) w) = S (draws w).
Proof. reflexivity. Qed.

Lemma draws_lines_18_20 a b d w : draws (exec (lines_18_20 a b d) w) = draws w.
Proof. reflexivity. Qed.

Lemma draws_lines_22_27 a b d w : draws (exec (lines_22_27 a b d) w) = draws w.
Proof. reflexivity. Qed.

Lemma draws_lines_29_33 w : draws (exec lines_29_33 w) = draws w.
Proof. reflexivity. Qed.

(** Every call of a run, in order; only the answers of the wrapper, which
    colour the plots and are printed, are left unnamed. *)
Lemma script_full_log w0 :
  exists c1 c2 c3 c4 r1 r2 r3 r4,
    log (exec (script uniform train_result ask_result) w0) =
      log w0 ++
      [print_len "# samples data_A: %s"
         (length (data_A_of (f32_rows uniform (draws w0) nr_samples)));
       print_len "# samples data_B: %s"
         (length (data_B_of (f32_rows uniform (draws w0) nr_samples)));
       print_len "# samples data: %s"
         (length (f32_rows uniform (draws w0) nr_samples));
       ltnw_predicate "A" 2; ltnw_predicate "B" 2;
       ltnw_variable "?data_A"
         (data_A_of (f32_rows uniform (draws w0) nr_samples));
       ltnw_variable "?data_B"
         (data_B_of (f32_rows uniform (draws w0) nr_samples));
       ltnw_variable "?data" (f32_rows uniform (draws w0) nr_samples);
       ltnw_formula "forall ?data_A: A(?data_A)";
       ltnw_formula "forall ?data_B: B(?data_B)";
       ltnw_formula "forall ?data: A(?data) -> ~B(?data)";
       ltnw_formula "forall ?data: ~B(?data) -> A(?data)";
       ltnw_initialize_knowledgebase F64.c_0_1;
       ltnw_train max_iterations;
       plt_figure 10 8;
       ltnw_ask "A(?data)"; plt_subplot 2 2 1; plt_title "A(x) - training";
       plt_scatter (fst <$> f32_rows uniform (draws w0) nr_samples)
                   (snd <$> f32_rows uniform (draws w0) nr_samples) c1;
       ltnw_ask "B(?data)"; plt_subplot 2 2 2; plt_title "B(x) - training";
       plt_scatter (fst <$> f32_rows uniform (draws w0) nr_samples)
                   (snd <$> f32_rows uniform (draws w0) nr_samples) c2;
       ltnw_variable "?data_test"
         (f32_rows uniform (S (draws w0)) nr_samples);
       ltnw_ask "A(?data_test)"; plt_subplot 2 2 3; plt_title "A(x) - test";
       plt_scatter (fst <$> f32_rows uniform (S (draws w0)) nr_samples)
                   (snd <$> f32_rows uniform (S (draws w0)) nr_samples) c3;
       ltnw_ask "B(?data_test)"; plt_subplot 2 2 4;
       plt_scatter (fst <$> f32_rows uniform (S (draws w0)) nr_samples)
                   (snd <$> f32_rows uniform (S (draws w0)) nr_samples) c4;
       plt_title "B(x) -test"; plt_show;
       ltnw_constant "a" [F64.c_0_5; F64.c_0_5];
       ltnw_constant "b" [F64.c_0_75; F64.c_0_75];
       ltnw_ask "A(a)"; print_result "a is in A: %s" r1;
       ltnw_ask "A(b)"; print_result "b is in A: %s" r2;
       ltnw_ask "B(a)"; print_result "a is in B: %s" r3;
       ltnw_ask "B(b)"; print_result "b is in B: %s" r4].
Proof.
  pose proof (draws_line_13 w0) as Hd1.
  destruct (line_13_spec uniform w0) as (_ & Hbuf & Hlen & Hlog1).
  revert Hbuf Hlen.
  generalize (f32_rows uniform (draws w0) nr_samples). intros rows Hbuf Hlen.
  assert (Hlive : live (heap (exec (line_13 uniform) w0))
                       (eval (line_13 uniform) w0)) by by exists rows.
  pose proof (grows_lines_14_16 (eval (line_13 uniform) w0)
                (exec (line_13 uniform) w0)) as Hg.
  destruct (lines_14_16_spec _ _ Hlive) as (HA & HB & HlA & HlB & Hlog2 & Hd2).
  rewrite (read_full _ _ rows Hbuf Hlen) in HA, HB, HlA, HlB.
  unfold script, after_line_13, exec, eval, mbind, M_bind in *.
  destruct (line_13 uniform w0) as [data w1]. cbn [fst snd] in *.
  destruct (lines_14_16 data w1) as [[dA dB] w2]. cbn [fst snd] in *.
  assert (Hbuf2 : heap w2 !! buf data = Some rows)
    by (by eapply lookup_weaken).
  destruct (lines_18_20_effect dA dB data w2) as [Hh3 Hlog3].
  pose proof (draws_lines_18_20 dA dB data w2) as Hd3.
  unfold exec in Hh3, Hlog3, Hd3.
  destruct (lines_18_20 dA dB data w2) as [[] w3]. cbn [fst snd] in *.
  destruct (lines_22_27_effect dA dB data w3) as [Hh4 Hlog4].
  pose proof (draws_lines_22_27 dA dB data w3) as Hd4.
  unfold exec in Hh4, Hlog4, Hd4.
  destruct (lines_22_27 dA dB data w3) as [[] w4]. cbn [fst snd] in *.
  destruct (lines_29_33_effect w4) as [Hh5 Hlog5].
  pose proof (draws_lines_29_33 w4) as Hd5.
  unfold exec in Hh5, Hlog5, Hd5.
  destruct (lines_29_33 w4) as [[] w5]. cbn [fst snd] in *.
  destruct (lines_35_36_effect train_result w5) as (Hh6 & Hd6 & Hlog6).
  unfold exec in Hh6, Hd6, Hlog6.
  destruct (lines_35_36 train_result w5) as [sat_level w6].
  cbn [fst snd] in *.
  destruct (lines_38_47_effect ask_result data w6)
    as (c1 & c2 & Hh7 & Hd7 & Hlog7).
  unfold exec in Hh7, Hd7, Hlog7.
  destruct (lines_38_47 ask_result data w6) as [[] w7]. cbn [fst snd] in *.
  destruct (lines_49_61_effect uniform ask_result w7)
    as (c3 & c4 & _ & Hlog8).
  unfold exec in Hlog8.
  destruct (lines_49_61 uniform ask_result w7) as [data_test w8].
  cbn [fst snd] in *.
  destruct (lines_63_68_effect ask_result w8)
    as (r1 & r2 & r3 & r4 & _ & Hlog9).
  unfold exec in Hlog9.
  exists c1, c2, c3, c4, r1, r2, r3, r4.
  assert (Hr3 : read (heap w3) data = rows)
    by (apply read_full; [by rewrite Hh3|exact Hlen]).
  assert (Hr6 : read (heap w6) data = rows).
  { apply read_full; [|exact Hlen]. by rewrite Hh6, Hh5, Hh4, Hh3. }
  rewrite Hlog9, Hlog8, Hlog7, Hlog6, Hlog5, Hlog4, Hlog3, Hlog2, Hlog1.
  rewrite Hd7, Hd6, Hd5, Hd4, Hd3, Hd2, Hd1.
  rewrite Hr6, Hr3, Hh3, HA, HB, HlA, HlB, Hlen.
  rewrite <- !app_assoc. reflexivity.
Qed.

End Run.

Lemma length_f32_rows uniform k n : length (f32_rows uniform k n) = n.
Proof. unfold f32_rows. by rewrite length_fmap, length_seq. Qed.

Lemma lines_35_36_ignores_result tr1 tr2 w :
  exec (lines_35_36 tr1) w = exec (lines_35_36 tr2) w.
Proof. reflexivity. Qed.

Section RunProperties.

Variable uniform : nat -> nat -> point.
Variable train_result : list call -> F64.t.
Variable ask_result : list call -> string -> list F64.t.

(** X9. The three lines a run prints report the same number of rows for
    data_A and data_B, at most half of [nr_samples], and [nr_samples] rows
    for data. *)
Theorem printed_sample_counts :
  exists n,
    print_lens_of
      (log (exec (script uniform train_result ask_result) initial_world))
    = [("# samples data_A: %s", n); ("# samples data_B: %s", n);
       ("# samples data: %s", nr_samples)] /\
    (2 * n <= nr_samples)%nat.
Proof.
  destruct (script_full_log uniform train_result ask_result initial_world)
    as (c1 & c2 & c3 & c4 & r1 & r2 & r3 & r4 & ->).
  change (draws initial_world) with 0%nat.
  change (log initial_world) with (@nil call). rewrite app_nil_l.
  pose proof (length_f32_rows uniform 0 nr_samples) as Hlen.
  revert Hlen. generalize (f32_rows uniform 1 nr_samples).
  generalize (f32_rows uniform 0 nr_samples). intros rows test Hlen.
  exists (length (data_A_of rows)). split.
  - cbn [print_lens_of omap list_omap]. 
    by rewrite Hlen, length_data_B_of, <- length_data_A_of.
  - pose proof (masks_length_le rows). rewrite length_data_A_of. lia.
Qed.

(** X10. Training is one call, [train(max_iterations=20000)] right after
    [initialize_knowledgebase(0.1)].  What the knowledge base holds at that
    moment is exactly the two predicates, the three training variables and
    the four axioms; nothing has been asked yet; and neither call is
    repeated later. *)
Theorem training_follows_the_axioms :
  exists before after,
    log (exec (script uniform train_result ask_result) initial_world)
    = before ++ [ltnw_initialize_knowledgebase F64.c_0_1;
                 ltnw_train 20000] ++ after /\
    registrations_of before =
      [ltnw_predicate "A" 2; ltnw_predicate "B" 2;
       ltnw_variable "?data_A" (data_A_of (f32_rows uniform 0 nr_samples));
       ltnw_variable "?data_B" (data_B_of (f32_rows uniform 0 nr_samples));
       ltnw_variable "?data" (f32_rows uniform 0 nr_samples);
       ltnw_formula "forall ?data_A: A(?data_A)";
       ltnw_formula "forall ?data_B: B(?data_B)";
       ltnw_formula "forall ?data: A(?data) -> ~B(?data)";
       ltnw_formula "forall ?data: ~B(?data) -> A(?data)"] /\
    asks_of before = [] /\
    trainings_of before = [] /\
    trainings_of after = [].
Proof.
  destruct (script_full_log uniform train_result ask_result initial_world)
    as (c1 & c2 & c3 & c4 & r1 & r2 & r3 & r4 & ->).
  change (draws initial_world) with 0%nat.
  change (log initial_world) with (@nil call). rewrite app_nil_l.
  generalize (f32_rows uniform 1 nr_samples).
  generalize (f32_rows uniform 0 nr_samples). intros rows test.
  match goal with
  | |- exists _ _, ?l = _ /\ _ => exists (take 12 l), (drop 14 l)
  end.
  split; [|split; [|split; [|split]]]; reflexivity.
Qed.

(** X11. Everything about the test set and the probes comes after
    training: the only registrations that follow the [train] call are
    ?data_test, bound to a second draw of [nr_samples] rows, and the
    constants a = (0.5,0.5) and b = (0.75,0.75); the eight queries of the
    script all follow it, in source order. *)
Theorem test_set_and_probes_follow_training :
  exists before after,
    log (exec (script uniform train_result ask_result) initial_world)
    = before ++ ltnw_train 20000 :: after /\
    trainings_of after = [] /\
    registrations_of after =
      [ltnw_variable "?data_test" (f32_rows uniform 1 nr_samples);
       ltnw_constant "a" [F64.c_0_5; F64.c_0_5];
       ltnw_constant "b" [F64.c_0_75; F64.c_0_75]] /\
    asks_of before = [] /\
    asks_of after =
      ["A(?data)"; "B(?data)"; "A(?data_test)"; "B(?data_test)";
       "A(a)"; "A(b)"; "B(a)"; "B(b)"].
Proof.
  destruct (script_full_log uniform train_result ask_result initial_world)
    as (c1 & c2 & c3 & c4 & r1 & r2 & r3 & r4 & ->).
  change (draws initial_world) with 0%nat.
  change (log initial_world) with (@nil call). rewrite app_nil_l.
  generalize (f32_rows uniform 1 nr_samples).
  generalize (f32_rows uniform 0 nr_samples). intros rows test.
  match goal with
  | |- exists _ _, ?l = _ /\ _ => exists (take 13 l), (drop 14 l)
  end.
  split; [|split; [|split; [|split]]]; reflexivity.
Qed.

(** X12. The four scatter plots show the arrays as they were drawn: the
    two training plots take their x and y from the columns of the rows of
    line 13, the two test plots from the columns of the rows of line 49. *)
Theorem plots_show_the_drawn_rows :
  scatter_points_of
    (log (exec (script uniform train_result ask_result) initial_world))
  = [(fst <$> f32_rows uniform 0 nr_samples,
      snd <$> f32_rows uniform 0 nr_samples);
     (fst <$> f32_rows uniform 0 nr_samples,
      snd <$> f32_rows uniform 0 nr_samples);
     (fst <$> f32_rows uniform 1 nr_samples,
      snd <$> f32_rows uniform 1 nr_samples);
     (fst <$> f32_rows uniform 1 nr_samples,
      snd <$> f32_rows uniform 1 nr_samples)].
Proof.
  destruct (script_full_log uniform train_result ask_result initial_world)
    as (c1 & c2 & c3 & c4 & r1 & r2 & r3 & r4 & ->).
  change (draws initial_world) with 0%nat.
  change (log initial_world) with (@nil call). rewrite app_nil_l.
  generalize (f32_rows uniform 1 nr_samples).
  generalize (f32_rows uniform 0 nr_samples). intros rows test.
  reflexivity.
Qed.

(** X13. The satisfaction level that [train] returns is never used: two
    runs that differ only in what [train] returns end in the same world,
    with the same log of calls and the same buffers. *)
Theorem train_result_is_never_used
    (train_result' : list call -> F64.t) (w0 : world) :
  exec (script uniform train_result ask_result) w0
  = exec (script uniform train_result' ask_result) w0.
Proof.
  unfold script, after_line_13, exec, mbind, M_bind.
  destruct (line_13 uniform w0) as [data w1].
  destruct (lines_14_16 data w1) as [[dA dB] w2].
  destruct (lines_18_20 dA dB data w2) as [[] w3].
  destruct (lines_22_27 dA dB data w3) as [[] w4].
  destruct (lines_29_33 w4) as [[] w5].
  pose proof (lines_35_36_ignores_result train_result train_result' w5) as H.
  unfold exec in H.
  destruct (lines_35_36 train_result w5) as [s1 w6].
  destruct (lines_35_36 train_result' w5) as [s2 w6'].
  cbn [snd] in H. subst w6'. reflexivity.
Qed.

End RunProperties.

(** * The computed distance against the exact one *)

(** ** Digits, shifts and rounding *)

Lemma digits2_pos_size m : digits2_pos m = Pos.size m.
Proof. induction m; simpl; congruence. Qed.

Lemma dig_bounds m : 2 ^ (dig m - 1) <= Zpos m < 2 ^ dig m.
Proof.
  unfold dig. rewrite digits2_pos_size.
  pose proof (Pos.size_gt m) as Hgt. pose proof (Pos.size_le m) as Hle.
  apply Pos2Z.pos_lt_pos in Hgt. apply Pos2Z.pos_le_pos in Hle.
  rewrite Pos2Z.inj_pow in Hgt, Hle.
  split; [|exact Hgt].
  replace (2 ^ Z.pos (Pos.size m)) with (2 * 2 ^ (Z.pos (Pos.size m) - 1)) in Hle.
  - lia.
  - rewrite <- Z.pow_succ_r by lia. f_equal. lia.
Qed.

Lemma dig_pos m : 0 < dig m.
Proof. unfold dig. lia. Qed.

Lemma dig_unique m k : 2 ^ (k - 1) <= Zpos m < 2 ^ k -> dig m = k.
Proof.
  intros [Hl Hu]. pose proof (dig_bounds m) as [Dl Du]. pose proof (dig_pos m).
  assert (0 < k).
  { destruct (Z.lt_ge_cases 0 k); [done|].
    rewrite (Z.pow_neg_r 2 (k-1)) in Hl by lia.
    assert (2 ^ k <= 1); [|lia].
    destruct (Z.eq_dec k 0) as [->|]; [done|]. rewrite Z.pow_neg_r; lia. }
  destruct (Z.lt_trichotomy (dig m) k) as [Hc|[Hc|Hc]]; [|done|].
  - assert (2 ^ dig m <= 2 ^ (k - 1)) by (apply Z.pow_le_mono_r; lia). lia.
  - assert (2 ^ k <= 2 ^ (dig m - 1)) by (apply Z.pow_le_mono_r; lia). lia.
Qed.

Lemma dig_shift m k (Hk : 0 <= k) q :
  Zpos q = Zpos m * 2 ^ k -> dig q = dig m + k.
Proof.
  intros Hq. apply dig_unique. rewrite Hq.
  pose proof (dig_bounds m) as [Dl Du]. pose proof (dig_pos m).
  replace (dig m + k - 1) with ((dig m - 1) + k) by lia.
  rewrite !Z.pow_add_r by lia.
  assert (0 < 2 ^ k) by (apply Z.pow_pos_nonneg; lia). nia.
Qed.

Lemma dig_div m n q :
  0 <= n -> Zpos q = Zpos m / 2 ^ n -> dig q = dig m - n.
Proof.
  intros Hn Hq. apply dig_unique. rewrite Hq.
  pose proof (dig_bounds m) as [Dl Du]. pose proof (dig_pos m).
  assert (Hp : 0 < 2 ^ n) by (apply Z.pow_pos_nonneg; lia).
  assert (Hdn : n < dig m).
  { destruct (Z.lt_ge_cases n (dig m)); [done|].
    assert (2 ^ dig m <= 2 ^ n) by (apply Z.pow_le_mono_r; lia).
    rewrite Z.div_small in Hq by lia. lia. }
  split.
  - apply Z.div_le_lower_bound; [lia|].
    rewrite <- Z.pow_add_r by lia. replace (n + (dig m - n - 1)) with (dig m - 1) by lia. done.
  - apply Z.div_lt_upper_bound; [lia|].
    rewrite <- Z.pow_add_r by lia. replace (n + (dig m - n)) with (dig m) by lia. done.
Qed.

Lemma Zdigits2_pos m : Zdigits2 (Zpos m) = dig m.
Proof. reflexivity. Qed.

(* shifting *)
Lemma pos_iter_xO m d : Zpos (Pos.iter xO m d) = Zpos m * 2 ^ Zpos d.
Proof.
  revert m. induction d using Pos.peano_ind; intros m.
  - simpl. lia.
  - rewrite Pos.iter_succ, Pos2Z.inj_succ, Z.pow_succ_r by lia.
    rewrite Pos2Z.inj_xO, IHd. lia.
Qed.

Lemma two_pow_xO n : 2 ^ Zpos n~0 = 2 ^ Zpos n * 2 ^ Zpos n.
Proof. rewrite <- Z.pow_add_r by lia. f_equal. lia. Qed.

Lemma two_pow_xI n : 2 ^ Zpos n~1 = 2 * (2 ^ Zpos n * 2 ^ Zpos n).
Proof. rewrite <- Z.pow_add_r, <- Z.pow_succ_r by lia. f_equal. lia. Qed.

Lemma shr_1_m mrs : 0 <= shr_m mrs -> shr_m (shr_1 mrs) = shr_m mrs / 2.
Proof.
  destruct mrs as [m r s]. simpl. destruct m as [|p|p]; [done| |lia].
  intros _. destruct p; simpl.
  - rewrite Pos2Z.inj_xI. apply Z.div_unique with 1; lia.
  - rewrite Pos2Z.inj_xO. apply Z.div_unique with 0; lia.
  - done.
Qed.

Lemma shr_1_m_nonneg mrs : 0 <= shr_m mrs -> 0 <= shr_m (shr_1 mrs).
Proof. intros H. rewrite shr_1_m by done. apply Z.div_pos; lia. Qed.

Lemma iter_shr_1_m n : forall mrs, 0 <= shr_m mrs ->
  shr_m (SpecFloat.iter_pos shr_1 n mrs) = shr_m mrs / 2 ^ Zpos n
  /\ 0 <= shr_m (SpecFloat.iter_pos shr_1 n mrs).
Proof.
  induction n as [n IH|n IH|]; intros mrs H; cbn [SpecFloat.iter_pos].
  - pose proof (shr_1_m mrs H) as H1. pose proof (shr_1_m_nonneg mrs H) as H1'.
    destruct (IH _ H1') as [H2 H2']. destruct (IH _ H2') as [H3 H3'].
    split; [|done]. rewrite H3, H2, H1.
    assert (Hp : 0 < 2 ^ Zpos n) by (apply Z.pow_pos_nonneg; lia).
    rewrite !Z.div_div by lia. by rewrite two_pow_xI.
  - destruct (IH _ H) as [H2 H2']. destruct (IH _ H2') as [H3 H3'].
    split; [|done]. rewrite H3, H2.
    assert (Hp : 0 < 2 ^ Zpos n) by (apply Z.pow_pos_nonneg; lia).
    rewrite !Z.div_div by lia. by rewrite two_pow_xO.
  - split; [|by apply shr_1_m_nonneg]. rewrite shr_1_m by done. done.
Qed.

Lemma shr_1_exact q : 0 <= q ->
  shr_1 (Build_shr_record (2 * q) false false) = Build_shr_record q false false.
Proof. intros H. destruct q as [|p|p]; [done|done|lia]. Qed.

Lemma iter_shr_1_exact n : forall q, 0 <= q ->
  SpecFloat.iter_pos shr_1 n (Build_shr_record (q * 2 ^ Zpos n) false false)
  = Build_shr_record q false false.
Proof.
  induction n as [n IH|n IH|]; intros q H;
    [assert (Hp : 0 < 2 ^ Zpos n) by (apply Z.pow_pos_nonneg; lia)
    |assert (Hp : 0 < 2 ^ Zpos n) by (apply Z.pow_pos_nonneg; lia)|].
  - rewrite two_pow_xI.
    replace (q * (2 * (2 ^ Z.pos n * 2 ^ Z.pos n)))
      with (2 * ((q * 2 ^ Zpos n) * 2 ^ Zpos n)) by ring.
    cbn [SpecFloat.iter_pos]. rewrite shr_1_exact by nia.
    rewrite IH by nia. by rewrite IH.
  - rewrite two_pow_xO.
    replace (q * (2 ^ Z.pos n * 2 ^ Z.pos n))
      with ((q * 2 ^ Zpos n) * 2 ^ Zpos n) by ring.
    cbn [SpecFloat.iter_pos]. rewrite IH by nia. by rewrite IH.
  - cbn [SpecFloat.iter_pos]. change (2 ^ 1) with 2. rewrite Z.mul_comm.
    by apply shr_1_exact.
Qed.

Lemma round_nearest_even_range q l :
  q <= round_nearest_even q l <= q + 1.
Proof. destruct l as [|[]]; simpl; try lia. destruct (Z.even q); lia. Qed.

Section Aux.
Variables prec emax : Z.
Hypothesis prec_pos : 0 < prec.

Lemma fexp_normal d e :
  3 - emax - prec <= d + e - prec -> fexp prec emax (d + e) = d + e - prec.
Proof. unfold fexp, emin. lia. Qed.

Lemma shr_fexp_no_shift m e :
  fexp prec emax (dig m + e) <= e ->
  shr_fexp prec emax (Zpos m) e loc_Exact
  = (Build_shr_record (Zpos m) false false, e).
Proof.
  intros H. unfold shr_fexp, shr. cbn [shr_record_of_loc].
  change (Zdigits2 (Zpos m)) with (dig m).
  destruct (fexp prec emax (dig m + e) - e) eqn:E; try done. lia.
Qed.

Lemma shr_fexp_shift m e :
  e < fexp prec emax (dig m + e) ->
  exists mrs,
    shr_fexp prec emax (Zpos m) e loc_Exact
    = (mrs, fexp prec emax (dig m + e)) /\
    shr_m mrs = Zpos m / 2 ^ (fexp prec emax (dig m + e) - e).
Proof.
  intros H. unfold shr_fexp, shr. cbn [shr_record_of_loc].
  change (Zdigits2 (Zpos m)) with (dig m).
  destruct (fexp prec emax (dig m + e) - e) as [|n|n] eqn:E; try lia.
  eexists. split.
  - f_equal. lia.
  - apply iter_shr_1_m. simpl. lia.
Qed.

Lemma shr_fexp_exact_shift m q e :
  e < fexp prec emax (dig m + e) ->
  Zpos m = Zpos q * 2 ^ (fexp prec emax (dig m + e) - e) ->
  shr_fexp prec emax (Zpos m) e loc_Exact
  = (Build_shr_record (Zpos q) false false, fexp prec emax (dig m + e)).
Proof.
  intros H Hq. unfold shr_fexp, shr. cbn [shr_record_of_loc].
  change (Zdigits2 (Zpos m)) with (dig m).
  destruct (fexp prec emax (dig m + e) - e) as [|n|n] eqn:E; try lia.
  rewrite Hq, iter_shr_1_exact by lia. f_equal. lia.
Qed.

Lemma aux_no_shift s m e :
  fexp prec emax (dig m + e) <= e ->
  binary_round_aux prec emax s (Zpos m) e loc_Exact
  = if e <=? emax - prec then S754_finite s m e else S754_infinity s.
Proof.
  intros H. unfold binary_round_aux.
  rewrite (shr_fexp_no_shift m e H). cbn [shr_m loc_of_shr_record round_nearest_even].
  rewrite (shr_fexp_no_shift m e H). reflexivity.
Qed.

Lemma aux_exact_shift s m q e :
  e < fexp prec emax (dig m + e) ->
  Zpos m = Zpos q * 2 ^ (fexp prec emax (dig m + e) - e) ->
  binary_round_aux prec emax s (Zpos m) e loc_Exact
  = if fexp prec emax (dig m + e) <=? emax - prec
    then S754_finite s q (fexp prec emax (dig m + e)) else S754_infinity s.
Proof.
  intros H Hq. unfold binary_round_aux.
  rewrite (shr_fexp_exact_shift m q e H Hq).
  cbn [shr_m loc_of_shr_record round_nearest_even].
  assert (Hd : dig m = dig q + (fexp prec emax (dig m + e) - e))
    by (apply dig_shift; [lia|done]).
  rewrite shr_fexp_no_shift.
  - reflexivity.
  - replace (dig q + fexp prec emax (dig m + e)) with (dig m + e) by lia. lia.
Qed.

(** Rounding of a mantissa of at least [prec] digits in the normal range. *)
Lemma aux_shape s m e :
  prec <= dig m ->
  3 - emax - prec <= dig m + e - prec ->
  exists M E,
    binary_round_aux prec emax s (Zpos m) e loc_Exact
    = (if E <=? emax - prec then S754_finite s M E else S754_infinity s) /\
    dig M = prec /\
    ((E = dig m + e - prec /\
      Zpos m / 2 ^ (dig m - prec) <= Zpos M <= Zpos m / 2 ^ (dig m - prec) + 1)
     \/ (E = dig m + e - prec + 1 /\ Zpos M = 2 ^ (prec - 1) /\
         Zpos m / 2 ^ (dig m - prec) + 1 = 2 ^ prec)).
Proof.
  intros Hd Hn.
  pose proof (fexp_normal (dig m) e Hn) as Hf.
  destruct (Z.eq_dec (dig m) prec) as [Heq|Hne].
  - exists m, e. rewrite aux_no_shift by lia.
    replace (dig m - prec) with 0 by lia. rewrite Z.div_1_r.
    split; [done|]. split; [done|]. left. lia.
  - assert (Hlt : e < fexp prec emax (dig m + e)) by lia.
    destruct (shr_fexp_shift m e Hlt) as (mrs & Hs & Hm).
    rewrite Hf in Hs, Hm. replace (dig m + e - prec - e) with (dig m - prec) in Hm by lia.
    set (q := Zpos m / 2 ^ (dig m - prec)) in *.
    assert (Hq : 2 ^ (prec - 1) <= q < 2 ^ prec).
    { pose proof (dig_bounds m) as [Dl Du].
      assert (Hp : 0 < 2 ^ (dig m - prec)) by (apply Z.pow_pos_nonneg; lia).
      unfold q. split.
      - apply Z.div_le_lower_bound; [lia|]. rewrite <- Z.pow_add_r by lia.
        replace (dig m - prec + (prec - 1)) with (dig m - 1) by lia. done.
      - apply Z.div_lt_upper_bound; [lia|]. rewrite <- Z.pow_add_r by lia.
        replace (dig m - prec + prec) with (dig m) by lia. done. }
    assert (Hpp : 0 < 2 ^ (prec - 1)) by (apply Z.pow_pos_nonneg; lia).
    pose proof (round_nearest_even_range q (loc_of_shr_record mrs)) as Hr.
    unfold binary_round_aux. rewrite Hs, Hm.
    set (q' := round_nearest_even q (loc_of_shr_record mrs)) in *.
    destruct q' as [|M'|M'] eqn:Eq'; try lia.
    destruct (Z.eq_dec (Zpos M') (2 ^ prec)) as [Hc|Hc].
    + (* carry *)
      assert (HdM : dig M' = prec + 1).
      { apply dig_unique. replace (prec + 1 - 1) with prec by lia.
        rewrite Hc. split; [lia|]. apply Z.pow_lt_mono_r; lia. }
      assert (H2 : Zpos M' = Zpos (Z.to_pos (2 ^ (prec - 1))) * 2 ^ 1).
      { rewrite Z2Pos.id by lia. rewrite Hc.
        rewrite <- Z.pow_add_r by lia. f_equal. lia. }
      exists (Z.to_pos (2 ^ (prec - 1))), (dig m + e - prec + 1).
      assert (Hf2 : fexp prec emax (dig M' + (dig m + e - prec))
                    = dig m + e - prec + 1) by (unfold fexp, emin; lia).
      rewrite (shr_fexp_exact_shift M' (Z.to_pos (2 ^ (prec - 1)))); rewrite Hf2.
      * cbn [shr_m]. split; [done|]. split.
        -- apply dig_unique. rewrite Z2Pos.id by lia. split; [lia|].
           apply Z.pow_lt_mono_r; lia.
        -- right. rewrite Z2Pos.id by lia. lia.
      * lia.
      * replace (dig m + e - prec + 1 - (dig m + e - prec)) with 1 by lia. done.
    + assert (HdM : dig M' = prec) by (apply dig_unique; lia).
      exists M', (dig m + e - prec).
      rewrite shr_fexp_no_shift by (rewrite HdM; unfold fexp, emin; lia).
      cbn [shr_m]. split; [done|]. split; [done|]. left. lia.
Qed.

End Aux.

(** ** Operations whose result needs no rounding *)

(** When the exact result of a subtraction, an addition or a product of
    doubles is itself a double, the operation returns it. *)
Lemma pow2_pos k : 0 <= k -> 0 < 2 ^ k.
Proof. intros. apply Z.pow_pos_nonneg; lia. Qed.

Lemma scale_cancel a b e E :
  - frac_bits <= E <= e -> a * 2 ^ (e + frac_bits) = b * 2 ^ (E + frac_bits) -> a * 2 ^ (e - E) = b.
Proof.
  intros H Heq. replace (e + frac_bits) with ((e - E) + (E + frac_bits)) in Heq by lia.
  rewrite Z.pow_add_r in Heq by lia.
  pose proof (pow2_pos (E + frac_bits)) as Hp.
  apply (Z.mul_reg_r _ _ (2 ^ (E + frac_bits))); [lia|]. lia.
Qed.

Lemma dig_value m M e E :
  - frac_bits <= e -> - frac_bits <= E ->
  Zpos m * 2 ^ (e + frac_bits) = Zpos M * 2 ^ (E + frac_bits) -> dig m + e = dig M + E.
Proof.
  intros He HE Heq.
  destruct (Z.le_ge_cases E e) as [H|H].
  - pose proof (scale_cancel (Zpos m) (Zpos M) e E ltac:(lia) Heq) as Hc.
    symmetry in Hc. apply (dig_shift m (e - E) ltac:(lia) M) in Hc. lia.
  - symmetry in Heq.
    pose proof (scale_cancel (Zpos M) (Zpos m) E e ltac:(lia) Heq) as Hc.
    symmetry in Hc. apply (dig_shift M (E - e) ltac:(lia) m) in Hc. lia.
Qed.

Lemma round_exact s m e M E :
  dig M = 53 -> -1074 <= E <= 971 -> - frac_bits <= e ->
  Zpos m * 2 ^ (e + frac_bits) = Zpos M * 2 ^ (E + frac_bits) ->
  binary_round 53 1024 s m e = S754_finite s M E.
Proof.
  intros HM HE He Heq.
  assert (HB : - frac_bits <= E) by (unfold frac_bits; lia).
  pose proof (dig_value m M e E He HB Heq) as Hd.
  assert (Hf : fexp 53 1024 (dig m + e) = E).
  { rewrite Hd, HM. unfold fexp, emin. lia. }
  unfold binary_round. change (Z.pos (digits2_pos m)) with (dig m). rewrite Hf.
  unfold shl_align.
  destruct (E - e) as [|d|d] eqn:Ed.
  - assert (E = e) as -> by lia.
    assert (m = M).
    { apply Pos2Z.inj. pose proof (pow2_pos (e + frac_bits)).
      apply (Z.mul_reg_r _ _ (2 ^ (e + frac_bits))); lia. }
    subst M. rewrite aux_no_shift by lia.
    destruct (e <=? 1024 - 53) eqn:El; [done|lia].
  - assert (Hq : Zpos m = Zpos M * 2 ^ (E - e)).
    { symmetry. apply (scale_cancel (Zpos M) (Zpos m) E e); [lia|done]. }
    rewrite (aux_exact_shift 53 1024 s m M e); rewrite Hf; try done; try lia.
    destruct (E <=? 1024 - 53) eqn:El; [done|lia].
  - assert (Hq : Zpos (Pos.iter xO m d) = Zpos M).
    { rewrite pos_iter_xO. replace (Zpos d) with (e - E) by lia.
      apply (scale_cancel (Zpos m) (Zpos M) e E); [lia|done]. }
    apply Pos2Z.inj in Hq. rewrite Hq.
    rewrite aux_no_shift by (rewrite HM; unfold fexp, emin; lia).
    destruct (E <=? 1024 - 53) eqn:El; [done|lia].
Qed.

Lemma normalize_exact D e v :
  - frac_bits <= e -> D * 2 ^ (e + frac_bits) = v -> target v ->
  normal64 (binary_normalize 53 1024 D e false) /\
  scaled (binary_normalize 53 1024 D e false) = v.
Proof.
  intros He HD [Hv|(M & E & HM & HE & HME)].
  - assert (D = 0). { pose proof (pow2_pos (e + frac_bits)). nia. }
    subst D. simpl. done.
  - pose proof (pow2_pos (e + frac_bits)) as Hp.
    pose proof (pow2_pos (E + frac_bits)) as Hp'.
    destruct D as [|p|p]; simpl.
    + simpl in HD. lia.
    + rewrite (round_exact false p e M E); try done; [|lia].
      simpl. split; [done|]. lia.
    + rewrite (round_exact true p e M E); try done; [|lia].
      simpl. split; [done|]. lia.
Qed.

Lemma shl_align_val m e e' :
  e' <= e -> Zpos (fst (shl_align m e e')) = Zpos m * 2 ^ (e - e').
Proof.
  intros H. unfold shl_align. destruct (e' - e) as [|d|d] eqn:E; simpl.
  - replace (e - e') with 0 by lia. lia.
  - lia.
  - rewrite pos_iter_xO. f_equal. f_equal. lia.
Qed.

Lemma aligned_scaled s m e ez :
  - frac_bits <= ez -> ez <= e ->
  cond_Zopp s (Zpos (fst (shl_align m e ez))) * 2 ^ (ez + frac_bits)
  = scaled (S754_finite s m e).
Proof.
  intros H1 H2. rewrite shl_align_val by done. cbn [scaled].
  replace (e + frac_bits) with ((e - ez) + (ez + frac_bits)) by lia.
  rewrite (Z.pow_add_r 2 (e - ez) (ez + frac_bits)) by lia.
  destruct s; cbn [cond_Zopp]; lia.
Qed.

Lemma val_sub x y :
  normal64 x -> normal64 y -> target (scaled x - scaled y) ->
  normal64 (F64.sub x y) /\ scaled (F64.sub x y) = scaled x - scaled y.
Proof.
  unfold F64.sub.
  destruct x as [sx|sx| |sx mx ex], y as [sy|sy| |sy my ey]; cbn [normal64];
    try (intros []; fail); try (intros _ []; fail); intros Hx Hy Ht.
  - by destruct sx, sy.
  - cbn [SFsub]. split; [exact Hy|]. cbn [scaled]. destruct sy; cbn [negb]; lia.
  - cbn [SFsub]. split; [exact Hx|]. cbn [scaled]. lia.
  - cbn [SFsub]. apply normalize_exact; [unfold frac_bits; lia| |done].
    rewrite Z.mul_sub_distr_r.
    rewrite !aligned_scaled by (unfold frac_bits; lia). done.
Qed.

Lemma val_add x y :
  normal64 x -> normal64 y -> target (scaled x + scaled y) ->
  normal64 (F64.add x y) /\ scaled (F64.add x y) = scaled x + scaled y.
Proof.
  unfold F64.add.
  destruct x as [sx|sx| |sx mx ex], y as [sy|sy| |sy my ey]; cbn [normal64];
    try (intros []; fail); try (intros _ []; fail); intros Hx Hy Ht.
  - by destruct sx, sy.
  - cbn [SFadd]. split; [exact Hy|]. cbn [scaled]. lia.
  - cbn [SFadd]. split; [exact Hx|]. cbn [scaled]. lia.
  - cbn [SFadd]. apply normalize_exact; [unfold frac_bits; lia| |done].
    rewrite Z.mul_add_distr_r.
    rewrite !aligned_scaled by (unfold frac_bits; lia). done.
Qed.

Lemma val_mul x y p :
  normal64 x -> normal64 y -> scaled x * scaled y = p * 2 ^ frac_bits -> target p ->
  normal64 (F64.mul x y) /\ scaled (F64.mul x y) = p.
Proof.
  unfold F64.mul.
  assert (HB : 0 < 2 ^ frac_bits) by (apply pow2_pos; unfold frac_bits; lia).
  destruct x as [sx|sx| |sx mx ex], y as [sy|sy| |sy my ey]; cbn [normal64];
    try (intros []; fail); try (intros _ []; fail); intros Hx Hy Hp Ht;
    cbn [SFmul].
  - cbn [scaled] in *. split; [done|]. nia.
  - cbn [scaled] in *. split; [done|]. nia.
  - cbn [scaled] in *. split; [done|]. nia.
  - destruct Hx as [Hdx Hex], Hy as [Hdy Hey].
    pose proof (pow2_pos (ex + frac_bits) ltac:(unfold frac_bits; lia)) as Px.
    pose proof (pow2_pos (ey + frac_bits) ltac:(unfold frac_bits; lia)) as Py.
    pose proof (pow2_pos (ex + ey + frac_bits) ltac:(unfold frac_bits; lia)) as Pxy.
    assert (Hpow : 2 ^ (ex + frac_bits) * 2 ^ (ey + frac_bits) = 2 ^ (ex + ey + frac_bits) * 2 ^ frac_bits).
    { rewrite <- !Z.pow_add_r by (unfold frac_bits; lia). f_equal. lia. }
    cbn [scaled] in Hp.
    set (sg := fun b : bool => if b then -1 else 1).
    change (if sx then -1 else 1) with (sg sx) in Hp.
    change (if sy then -1 else 1) with (sg sy) in Hp.
    assert (Hp' : p = sg sx * sg sy * (Zpos (mx * my) * 2 ^ (ex + ey + frac_bits))).
    { apply (Z.mul_reg_r _ _ (2 ^ frac_bits)); [lia|]. rewrite <- Hp.
      rewrite Pos2Z.inj_mul.
      transitivity (sg sx * sg sy * (Zpos mx * Zpos my)
                    * (2 ^ (ex + frac_bits) * 2 ^ (ey + frac_bits))); [ring|].
      rewrite Hpow. ring. }
    destruct Ht as [Ht|(M & E & HM & HE & HME)].
    { assert (0 < Zpos (mx * my) * 2 ^ (ex + ey + frac_bits)) by (apply Z.mul_pos_pos; lia).
      rewrite Hp' in Ht. destruct sx, sy; unfold sg in Ht; lia. }
    assert (Habs : Z.abs p = Zpos (mx * my) * 2 ^ (ex + ey + frac_bits)).
    { rewrite Hp'. destruct sx, sy; unfold sg; lia. }
    rewrite Habs in HME.
    assert (Hd : dig (mx * my) + (ex + ey) = dig M + E).
    { apply dig_value; [unfold frac_bits; lia|unfold frac_bits; lia|]. done. }
    assert (Hlow : 2 ^ 104 <= Zpos (mx * my)).
    { pose proof (dig_bounds mx) as [Lx _]. pose proof (dig_bounds my) as [Ly _].
      rewrite Hdx in Lx. rewrite Hdy in Ly. rewrite Pos2Z.inj_mul.
      change (2 ^ 104) with (2 ^ (53 - 1) * 2 ^ (53 - 1)). nia. }
    assert (Hdm : 105 <= dig (mx * my)).
    { destruct (Z.lt_ge_cases (dig (mx * my)) 105); [|done].
      pose proof (dig_bounds (mx * my)) as [_ U].
      assert (2 ^ dig (mx * my) <= 2 ^ 104) by (apply Z.pow_le_mono_r; lia). lia. }
    assert (Hf : fexp 53 1024 (dig (mx * my) + (ex + ey)) = E).
    { rewrite Hd, HM. unfold fexp, emin. lia. }
    unfold F64.prec, F64.emax.
    rewrite (aux_exact_shift 53 1024 (xorb sx sy) (mx * my) M (ex + ey));
      rewrite Hf.
    + destruct (E <=? 1024 - 53) eqn:El; [|lia].
      cbn [normal64 scaled]. split; [done|].
      rewrite Hp', HME. destruct sx, sy; unfold sg; cbn [xorb]; lia.
    + lia.
    + symmetry. apply (scale_cancel (Zpos M) (Zpos (mx * my)) E (ex + ey));
        [unfold frac_bits; lia|done].
Qed.

Lemma val_compare x y :
  normal64 x -> normal64 y -> 0 <= scaled x -> 0 < scaled y ->
  SFcompare x y = Some (scaled x ?= scaled y).
Proof.
  destruct x as [sx|sx| |sx mx ex], y as [sy|sy| |sy my ey]; cbn [normal64];
    try (intros []; fail); try (intros _ []; fail); intros Hx Hy Px Py.
  - cbn [scaled] in Py. lia.
  - cbn [scaled] in *. 
    pose proof (pow2_pos (ey + frac_bits) ltac:(unfold frac_bits; lia)).
    destruct sy; [lia|]. cbn [SFcompare]. f_equal. symmetry.
    apply Z.compare_lt_iff. lia.
  - cbn [scaled] in Py. lia.
  - destruct Hx as [Hdx Hex], Hy as [Hdy Hey].
    pose proof (pow2_pos (ex + frac_bits) ltac:(unfold frac_bits; lia)) as Pex.
    pose proof (pow2_pos (ey + frac_bits) ltac:(unfold frac_bits; lia)) as Pey.
    cbn [scaled] in *.
    destruct sx; [lia|]. destruct sy; [lia|].
    cbn [SFcompare]. f_equal.
    pose proof (dig_bounds mx) as [Lx Ux]. pose proof (dig_bounds my) as [Ly Uy].
    rewrite Hdx in Lx, Ux. rewrite Hdy in Ly, Uy.
    change (2 ^ (53 - 1)) with (2 ^ 52) in *.
    rewrite !Z.mul_1_l.
    destruct (ex ?= ey) eqn:Ec.
    + apply Z.compare_eq in Ec. subst ey.
      change (Pos.compare_cont Eq mx my) with (mx ?= my)%positive.
      destruct (Pos.compare_spec mx my) as [Heq|Hlt|Hgt]; symmetry.
      * subst my. apply Z.compare_refl.
      * apply Z.compare_lt_iff. apply Pos2Z.pos_lt_pos in Hlt. nia.
      * apply Z.compare_gt_iff. apply Pos2Z.pos_lt_pos in Hgt. nia.
    + assert (Hc : ex < ey) by (apply Z.compare_lt_iff; exact Ec).
      symmetry. apply Z.compare_lt_iff.
      replace (ey + frac_bits) with ((ey - ex) + (ex + frac_bits)) by lia.
      rewrite (Z.pow_add_r 2 (ey - ex) (ex + frac_bits)) by (unfold frac_bits; lia).
      assert (HQ : 2 ^ 1 <= 2 ^ (ey - ex)) by (apply Z.pow_le_mono_r; lia).
      change (2 ^ 1) with 2 in HQ.
      set (P := 2 ^ (ex + frac_bits)) in *. set (Q := 2 ^ (ey - ex)) in *.
      assert (H1 : Zpos mx * P < 2 ^ 53 * P)
        by (apply Z.mul_lt_mono_pos_r; lia).
      assert (H2 : 2 ^ 52 * 2 <= Zpos my * Q)
        by (apply Z.mul_le_mono_nonneg; lia).
      assert (H3 : 2 ^ 52 * 2 * P <= Zpos my * Q * P)
        by (apply Z.mul_le_mono_nonneg_r; lia).
      rewrite Z.mul_assoc. change (2 ^ 52 * 2) with (2 ^ 53) in H3. lia.
    + assert (Hc : ey < ex) by (apply Z.compare_gt_iff; exact Ec).
      symmetry. apply Z.compare_gt_iff.
      replace (ex + frac_bits) with ((ex - ey) + (ey + frac_bits)) by lia.
      rewrite (Z.pow_add_r 2 (ex - ey) (ey + frac_bits)) by (unfold frac_bits; lia).
      assert (HQ : 2 ^ 1 <= 2 ^ (ex - ey)) by (apply Z.pow_le_mono_r; lia).
      change (2 ^ 1) with 2 in HQ.
      set (P := 2 ^ (ey + frac_bits)) in *. set (Q := 2 ^ (ex - ey)) in *.
      assert (H1 : Zpos my * P < 2 ^ 53 * P)
        by (apply Z.mul_lt_mono_pos_r; lia).
      assert (H2 : 2 ^ 52 * 2 <= Zpos mx * Q)
        by (apply Z.mul_le_mono_nonneg; lia).
      assert (H3 : 2 ^ 52 * 2 * P <= Zpos mx * Q * P)
        by (apply Z.mul_le_mono_nonneg_r; lia).
      rewrite Z.mul_assoc. change (2 ^ 52 * 2) with (2 ^ 53) in H3. lia.
Qed.

(** ** binary32 numbers of the unit interval *)

(** The promotion of such a single to a double keeps its value. *)
Lemma dig_le p k : 0 < k -> Zpos p < 2 ^ k -> dig p <= k.
Proof.
  intros Hk H. destruct (Z.le_gt_cases (dig p) k); [done|].
  pose proof (dig_bounds p) as [L _].
  assert (2 ^ k <= 2 ^ (dig p - 1)) by (apply Z.pow_le_mono_r; lia). lia.
Qed.

Lemma dig_ge p k : 2 ^ (k - 1) <= Zpos p -> k <= dig p.
Proof.
  intros H. destruct (Z.le_gt_cases k (dig p)); [done|].
  pose proof (dig_bounds p) as [_ U]. pose proof (dig_pos p).
  assert (2 ^ dig p <= 2 ^ (k - 1)) by (apply Z.pow_le_mono_r; lia). lia.
Qed.

Lemma unit_f32_finite m e :
  unit_f32 (S754_finite false m e) = true ->
  dig m <= 24 /\ -149 <= e <= -23 /\ Zpos m * 2 ^ (e + 149) <= 2 ^ 149 /\
  (dig m = 24 \/ e = -149).
Proof.
  cbn [unit_f32]. intros [Hb Hv]%andb_prop.
  unfold bounded, canonical_mantissa in Hb.
  apply andb_prop in Hb as [Hc _]. apply Z.eqb_eq in Hc.
  change (Z.pos (digits2_pos m)) with (dig m) in Hc.
  unfold fexp, emin, F32.prec, F32.emax in Hc.
  apply Z.leb_le in Hv.
  assert (He : -149 <= e) by lia.
  assert (Hd : dig m <= 24) by lia.
  assert (Hn : dig m = 24 \/ e = -149) by lia.
  repeat split; try done.
  destruct (Z.le_gt_cases e (-23)); [done|exfalso].
  destruct Hn as [Hn|Hn]; [|lia].
  pose proof (dig_bounds m) as [L _]. rewrite Hn in L.
  assert (2 ^ (-22 + 149) <= 2 ^ (e + 149)) by (apply Z.pow_le_mono_r; lia).
  change (2 ^ (24 - 1)) with (2 ^ 23) in L.
  assert (2 ^ 23 * 2 ^ (-22 + 149) <= Zpos m * 2 ^ (e + 149))
    by (apply Z.mul_le_mono_nonneg; lia).
  assert (2 ^ 149 < 2 ^ 23 * 2 ^ (-22 + 149)) by (by vm_compute).
  lia.
Qed.

Lemma target_intro v p e :
  Z.abs v = Zpos p * 2 ^ (e + frac_bits) -> Zpos p < 2 ^ 53 -> -1022 <= e <= 971 ->
  target v.
Proof.
  intros Hv Hp He. right.
  pose proof (dig_le p 53 ltac:(lia) Hp) as Hd. pose proof (dig_pos p) as Hd0.
  pose proof (pow2_pos (53 - dig p) ltac:(lia)) as Hk.
  exists (Z.to_pos (Zpos p * 2 ^ (53 - dig p))), (e - (53 - dig p)).
  assert (Hid : Zpos (Z.to_pos (Zpos p * 2 ^ (53 - dig p)))
                = Zpos p * 2 ^ (53 - dig p)) by (apply Z2Pos.id; lia).
  split; [|split; [lia|]].
  - rewrite (dig_shift p (53 - dig p) ltac:(lia) _ Hid). lia.
  - rewrite Hid, Hv, <- Z.mul_assoc. f_equal.
    rewrite <- Z.pow_add_r by (unfold frac_bits; lia). f_equal. lia.
Qed.

Lemma val_round s m e :
  - frac_bits <= e -> target (Zpos m * 2 ^ (e + frac_bits)) ->
  normal64 (binary_round 53 1024 s m e) /\
  scaled (binary_round 53 1024 s m e)
  = (if s then -1 else 1) * (Zpos m * 2 ^ (e + frac_bits)).
Proof.
  intros He [Ht|(M & E & HM & HE & HME)].
  - pose proof (pow2_pos (e + frac_bits)). lia.
  - pose proof (pow2_pos (e + frac_bits)).
    rewrite Z.abs_eq in HME by lia.
    rewrite (round_exact s m e M E); try done.
    cbn [normal64 scaled]. split; [done|]. by rewrite HME.
Qed.

Lemma val_to_f64 x :
  unit_f32 x = true ->
  normal64 (F32.to_f64 x) /\ scaled (F32.to_f64 x) = scaled x.
Proof.
  destruct x as [s|s| |s m e]; try done. destruct s; [done|].
  intros (Hd & He & Hv & _)%unit_f32_finite.
  cbn [F32.to_f64]. unfold F64.prec, F64.emax.
  destruct (val_round false m e) as [Hn Hs].
  - unfold frac_bits. lia.
  - apply (target_intro _ m e).
    + pose proof (pow2_pos (e + frac_bits) ltac:(unfold frac_bits; lia)). lia.
    + pose proof (dig_bounds m) as [_ U].
      assert (2 ^ dig m <= 2 ^ 53) by (apply Z.pow_le_mono_r; lia). lia.
    + lia.
  - split; [done|]. rewrite Hs. cbn [scaled]. lia.
Qed.

(** ** On the grid of 2^-26 the distance is computed exactly *)

Lemma target_grid v n e :
  Z.abs v = n * 2 ^ (e + frac_bits) -> 0 <= n < 2 ^ 53 -> -1022 <= e <= 971 ->
  target v.
Proof.
  intros Hv Hn He.
  destruct n as [|p|p]; [|apply (target_intro v p e); [done|lia|done]|lia].
  left. lia.
Qed.

Lemma grid_scaled x :
  unit_f32 x = true -> on_grid x = true ->
  scaled x = grid x * 2 ^ (frac_bits - 26) /\ 0 <= grid x <= 2 ^ 26.
Proof.
  destruct x as [s|s| |s m e]; try done.
  destruct s; [done|]. intros (Hd & He & Hv & _)%unit_f32_finite Hg.
  { cbn [on_grid] in Hg. apply Z.leb_le in Hg. cbn [scaled grid].
    pose proof (pow2_pos (e + 26) ltac:(lia)) as P1.
    split.
    + replace (e + frac_bits) with ((e + 26) + (frac_bits - 26)) by lia.
      rewrite Z.pow_add_r by (unfold frac_bits; lia). lia.
    + split; [lia|].
      replace (e + 149) with ((e + 26) + 123) in Hv by lia.
      rewrite (Z.pow_add_r 2 (e + 26) 123) in Hv by lia.
      change (2 ^ 149) with (2 ^ 26 * 2 ^ 123) in Hv.
      assert (0 < 2 ^ 123) by done. nia. }
Qed.

Lemma normal64_c_0_5 : normal64 F64.c_0_5 /\ scaled F64.c_0_5 = 2 ^ 25 * 2 ^ (frac_bits - 26).
Proof.
  split; [by vm_compute|]. cbn [scaled F64.c_0_5].
  change (Z.pos 4503599627370496) with (2 ^ 52).
  rewrite Z.mul_1_l, <- !Z.pow_add_r by (unfold frac_bits; lia). f_equal.
Qed.

Lemma coordinate_square x :
  unit_f32 x = true -> on_grid x = true ->
  normal64 (F64.square (F64.sub (F32.to_f64 x) F64.c_0_5)) /\
  scaled (F64.square (F64.sub (F32.to_f64 x) F64.c_0_5))
  = (grid x - 2 ^ 25) * (grid x - 2 ^ 25) * 2 ^ (frac_bits - 52).
Proof.
  intros Hu Hg.
  destruct (val_to_f64 x Hu) as [Hn Hs].
  destruct (grid_scaled x Hu Hg) as [Hgs Hgr].
  destruct normal64_c_0_5 as [Hc Hcs].
  assert (PG : 0 < 2 ^ (frac_bits - 26)) by (apply pow2_pos; unfold frac_bits; lia).
  assert (Hsplit : 2 ^ (frac_bits - 26) = 2 ^ (-26 + frac_bits)) by (f_equal; lia).
  destruct (val_sub (F32.to_f64 x) F64.c_0_5 Hn Hc) as [Hdn Hds].
  { rewrite Hs, Hgs, Hcs, <- Z.mul_sub_distr_r.
    apply (target_grid _ (Z.abs (grid x - 2 ^ 25)) (-26)).
    - rewrite Z.abs_mul, (Z.abs_eq (2 ^ (frac_bits - 26))) by lia. by rewrite Hsplit.
    - change (2 ^ 53) with (2 ^ 26 * 2 ^ 27). change (2 ^ 26) with (2 * 2 ^ 25) in *. lia.
    - lia. }
  rewrite Hs, Hgs, Hcs, <- Z.mul_sub_distr_r in Hds.
  set (d := grid x - 2 ^ 25) in *.
  assert (Hd : Z.abs d <= 2 ^ 25)
    by (unfold d; change (2 ^ 26) with (2 * 2 ^ 25) in Hgr; lia).
  assert (Hpw : 2 ^ (frac_bits - 26) * 2 ^ (frac_bits - 26) = 2 ^ (frac_bits - 52) * 2 ^ frac_bits).
  { rewrite <- !Z.pow_add_r by (unfold frac_bits; lia). f_equal; lia. }
  unfold F64.square.
  apply val_mul; [exact Hdn|exact Hdn| |].
  - rewrite Hds.
    transitivity (d * d * (2 ^ (frac_bits - 26) * 2 ^ (frac_bits - 26))); [ring|].
    rewrite Hpw. ring.
  - apply (target_grid _ (d * d) (-52)).
    + assert (0 < 2 ^ (frac_bits - 52)) by (apply pow2_pos; unfold frac_bits; lia).
      rewrite Z.abs_eq by nia. replace (-52 + frac_bits) with (frac_bits - 52) by lia.
      reflexivity.
    + change (2 ^ 53) with (2 ^ 25 * 2 ^ 25 * 8). 
      assert (d * d <= 2 ^ 25 * 2 ^ 25) by nia. nia.
    + lia.
Qed.

Lemma grid_sq_dist p :
  unit_f32 (fst p) = true -> unit_f32 (snd p) = true ->
  on_grid (fst p) = true -> on_grid (snd p) = true ->
  normal64 (sq_dist p) /\
  scaled (sq_dist p)
  = ((grid (fst p) - 2 ^ 25) * (grid (fst p) - 2 ^ 25)
     + (grid (snd p) - 2 ^ 25) * (grid (snd p) - 2 ^ 25)) * 2 ^ (frac_bits - 52).
Proof.
  intros Hx Hy Gx Gy. unfold sq_dist.
  destruct (coordinate_square _ Hx Gx) as [Nx Sx].
  destruct (coordinate_square _ Hy Gy) as [Ny Sy].
  destruct (grid_scaled _ Hx Gx) as [_ Rx].
  destruct (grid_scaled _ Hy Gy) as [_ Ry].
  set (dx := grid (fst p) - 2 ^ 25) in *.
  set (dy := grid (snd p) - 2 ^ 25) in *.
  assert (Hdx : dx * dx <= 2 ^ 25 * 2 ^ 25)
    by (unfold dx; change (2 ^ 26) with (2 * 2 ^ 25) in Rx; nia).
  assert (Hdy : dy * dy <= 2 ^ 25 * 2 ^ 25)
    by (unfold dy; change (2 ^ 26) with (2 * 2 ^ 25) in Ry; nia).
  assert (P : 0 < 2 ^ (frac_bits - 52)) by (apply pow2_pos; unfold frac_bits; lia).
  destruct (val_add _ _ Nx Ny) as [Ns Ss].
  - rewrite Sx, Sy, <- Z.mul_add_distr_r.
    apply (target_grid _ (dx * dx + dy * dy) (-52)).
    + rewrite Z.abs_eq by nia. replace (-52 + frac_bits) with (frac_bits - 52) by lia.
      reflexivity.
    + change (2 ^ 53) with (2 ^ 25 * 2 ^ 25 * 8). nia.
    + lia.
  - split; [done|]. rewrite Ss, Sx, Sy. ring.
Qed.

Lemma normal64_c_0_09 :
  normal64 F64.c_0_09 /\
  scaled F64.c_0_09 = 6485183463413514 * 2 ^ (frac_bits - 56).
Proof.
  split; [by vm_compute|]. cbn [scaled F64.c_0_09].
  rewrite Z.mul_1_l. f_equal.
Qed.

Lemma grid_compare p :
  unit_f32 (fst p) = true -> unit_f32 (snd p) = true ->
  on_grid (fst p) = true -> on_grid (snd p) = true ->
  SFcompare (sq_dist p) F64.c_0_09
  = Some (16 * grid_sum p ?= 6485183463413514).
Proof.
  intros Hx Hy Gx Gy.
  destruct (grid_sq_dist p Hx Hy Gx Gy) as [Ns Ss]. fold (grid_sum p) in Ss.
  destruct normal64_c_0_09 as [Nc Sc].
  assert (P : 0 < 2 ^ (frac_bits - 56)) by (apply pow2_pos; unfold frac_bits; lia).
  assert (Hp : 2 ^ (frac_bits - 52) = 16 * 2 ^ (frac_bits - 56)).
  { change 16 with (2 ^ 4). rewrite <- Z.pow_add_r by (unfold frac_bits; lia).
    f_equal; lia. }
  assert (Hn : 0 <= grid_sum p)
    by (unfold grid_sum; apply Z.add_nonneg_nonneg; apply Z.square_nonneg).
  rewrite (val_compare _ _ Ns Nc).
  - f_equal. rewrite Ss, Sc, Hp.
    destruct (Z.compare_spec (16 * grid_sum p) 6485183463413514) as [E|E|E].
    + apply Z.compare_eq_iff. lia.
    + apply Z.compare_lt_iff. nia.
    + apply Z.compare_gt_iff. nia.
  - rewrite Ss, Hp. nia.
  - rewrite Sc. lia.
Qed.

Lemma grid_masks p :
  unit_f32 (fst p) = true -> unit_f32 (snd p) = true ->
  on_grid (fst p) = true -> on_grid (snd p) = true ->
  (mask_A p = true <-> 100 * grid_sum p < 9 * 2 ^ 52) /\
  (mask_B p = true <-> 9 * 2 ^ 52 <= 100 * grid_sum p).
Proof.
  intros Hx Hy Gx Gy.
  pose proof (grid_compare p Hx Hy Gx Gy) as Hc.
  unfold mask_A, mask_B, F64.lt, F64.ge, SFltb, SFleb.
  rewrite (SFcompare_antisym (sq_dist p) F64.c_0_09), Hc.
  change (9 * 2 ^ 52) with 40532396646334464.
  destruct (Z.compare_spec (16 * grid_sum p) 6485183463413514) as [E|E|E];
    cbn; split; split; intros H; try done; lia.
Qed.

(** ** Far from the centre: a coordinate below 1/8 *)

Lemma aux_result_sign prec emax s m e l :
  match binary_round_aux prec emax s m e l with
  | S754_finite s' _ _ | S754_infinity s' => s' = s
  | _ => True
  end.
Proof.
  unfold binary_round_aux.
  destruct (shr_fexp prec emax m e l) as [mrs' e'].
  destruct (shr_fexp prec emax _ e' loc_Exact) as [mrs'' e''].
  destruct (shr_m mrs'') as [|p|p]; try done.
  by destruct (e'' <=? emax - prec).
Qed.

Lemma square_shape d :
  F64.is_nan d = false ->
  match F64.square d with
  | S754_zero _ => True
  | S754_finite s _ _ | S754_infinity s => s = false
  | S754_nan => False
  end.
Proof.
  intros Hd. destruct d as [s|s| |s m e]; try done.
  - simpl. apply xorb_nilpotent.
  - unfold F64.square, F64.mul. cbn [SFmul].
    pose proof (aux_result_sign F64.prec F64.emax (xorb s s)
                  (Zpos (m * m)) (e + e) loc_Exact) as Hs.
    pose proof (binary_round_aux_not_nan F64.prec F64.emax (xorb s s)
                  (Zpos (m * m)) (e + e) loc_Exact ltac:(lia)) as Hn.
    rewrite xorb_nilpotent in *.
    destruct (binary_round_aux _ _ _ _ _ _); try done.
Qed.

Lemma far_sub x :
  unit_f32 x = true -> on_grid x = false ->
  exists M E,
    F64.sub (F32.to_f64 x) F64.c_0_5 = S754_finite true M E /\
    dig M = 53 /\ ((E = -54 /\ 3 * 2 ^ 51 <= Zpos M) \/ E = -53).
Proof.
  intros Hu Hg. destruct (val_to_f64 x Hu) as [Hn Hs].
  destruct x as [s|s| |s m e]; try done. destruct s; [done|].
  apply unit_f32_finite in Hu as (Hd & He & Hv & _).
  cbn [on_grid] in Hg. apply Z.leb_gt in Hg.
  cbn [scaled] in Hs. rewrite Z.mul_1_l in Hs.
  pose proof (pow2_pos (e + frac_bits) ltac:(unfold frac_bits; lia)) as Pe.
  destruct (F32.to_f64 (S754_finite false m e)) as [sz|sz| |sX MX EX];
    cbn [normal64 scaled] in Hn, Hs; try done; try lia.
  destruct Hn as [HdX HEX].
  pose proof (pow2_pos (EX + frac_bits) ltac:(unfold frac_bits; lia)) as PX.
  destruct sX; [lia|]. rewrite Z.mul_1_l in Hs.
  pose proof (dig_bounds MX) as [LX UX]. rewrite HdX in LX, UX.
  change (2 ^ (53 - 1)) with (2 ^ 52) in LX.
  pose proof (dig_bounds m) as [_ Um].
  assert (Um' : Zpos m < 2 ^ 24).
  { assert (2 ^ dig m <= 2 ^ 24) by (apply Z.pow_le_mono_r; lia). lia. }
  (* the value is below 1/8 *)
  assert (Hsmall : Zpos MX * 2 ^ (EX + frac_bits) < 2 ^ (frac_bits - 3)).
  { rewrite Hs.
    assert (2 ^ (e + frac_bits) <= 2 ^ (-27 + frac_bits)) by (apply Z.pow_le_mono_r; unfold frac_bits; lia).
    assert (Zpos m * 2 ^ (e + frac_bits) < 2 ^ 24 * 2 ^ (-27 + frac_bits)) by nia.
    replace (2 ^ (frac_bits - 3)) with (2 ^ 24 * 2 ^ (-27 + frac_bits)); [done|].
    rewrite <- Z.pow_add_r by (unfold frac_bits; lia). f_equal; lia. }
  assert (HEX' : EX <= -56).
  { destruct (Z.le_gt_cases EX (-56)); [done|exfalso].
    assert (2 ^ (-55 + frac_bits) <= 2 ^ (EX + frac_bits)) by (apply Z.pow_le_mono_r; unfold frac_bits; lia).
    assert (2 ^ 52 * 2 ^ (-55 + frac_bits) <= Zpos MX * 2 ^ (EX + frac_bits))
      by (apply Z.mul_le_mono_nonneg; lia).
    assert (2 ^ 52 * 2 ^ (-55 + frac_bits) = 2 ^ (frac_bits - 3)).
    { rewrite <- Z.pow_add_r by (unfold frac_bits; lia). f_equal; lia. }
    lia. }
  assert (HMX : Zpos MX < 2 ^ (-3 - EX)).
  { replace (frac_bits - 3) with ((-3 - EX) + (EX + frac_bits)) in Hsmall by lia.
    rewrite (Z.pow_add_r 2 (-3 - EX) (EX + frac_bits)) in Hsmall by (unfold frac_bits; lia).
    apply Z.mul_lt_mono_pos_r in Hsmall; [done|lia]. }
  unfold F64.sub. cbn [SFsub F64.c_0_5].
  rewrite (Z.min_l EX (-53)) by lia.
  cbn [cond_Zopp].
  rewrite !shl_align_val by lia.
  replace (EX - EX) with 0 by lia. rewrite Z.mul_1_r.
  change (Z.pos 4503599627370496) with (2 ^ 52).
  rewrite <- Z.pow_add_r by lia.
  replace (52 + (-53 - EX)) with (-1 - EX) by lia.
  assert (H4 : 2 ^ (-1 - EX) = 4 * 2 ^ (-3 - EX)).
  { change 4 with (2 ^ 2). rewrite <- Z.pow_add_r by lia. f_equal; lia. }
  pose proof (pow2_pos (-3 - EX) ltac:(lia)) as P3.
  destruct (Zpos MX - 2 ^ (-1 - EX)) as [|P|P] eqn:ED; try lia.
  assert (HP : Zpos P = 2 ^ (-1 - EX) - Zpos MX) by lia.
  cbn [binary_normalize].
  assert (HdP : dig P = -1 - EX).
  { apply dig_unique. split; [|lia].
    replace (-1 - EX - 1) with (1 + (-3 - EX)) by lia.
    rewrite Z.pow_add_r by lia. change (2 ^ 1) with 2. lia. }
  unfold binary_round. change (Z.pos (digits2_pos P)) with (dig P).
  rewrite HdP. replace (-1 - EX + EX) with (-1) by lia.
  change (fexp F64.prec F64.emax (-1)) with (-54).
  unfold shl_align.
  destruct (-54 - EX) as [|k|k] eqn:Ek; try lia.
  destruct (aux_shape 53 1024 ltac:(lia) true P EX) as (M & E & Hr & HM & HE).
  { lia. } { lia. }
  unfold F64.prec, F64.emax. rewrite Hr.
  exists M, E.
  assert (Hq : 3 * 2 ^ 51 <= Zpos P / 2 ^ (dig P - 53)).
  { apply Z.div_le_lower_bound; [apply pow2_pos; lia|].
    rewrite HdP. replace (-1 - EX - 53) with (-54 - EX) by lia.
    rewrite Z.mul_comm, <- Z.mul_assoc, <- Z.pow_add_r by lia.
    replace (51 + (-54 - EX)) with (-3 - EX) by lia. lia. }
  destruct HE as [[HE1 HE2]|[HE1 HE2]].
  - destruct (E <=? 1024 - 53) eqn:El; [|lia].
    split; [done|]. split; [done|]. left. lia.
  - destruct (E <=? 1024 - 53) eqn:El; [|lia].
    split; [done|]. split; [done|]. right. lia.
Qed.

Lemma far_square M E :
  dig M = 53 -> ((E = -54 /\ 3 * 2 ^ 51 <= Zpos M) \/ E = -53) ->
  exists Ma Ea,
    F64.square (S754_finite true M E) = S754_finite false Ma Ea /\
    dig Ma = 53 /\ -55 <= Ea <= 0.
Proof.
  intros HM HE. unfold F64.square, F64.mul. cbn [SFmul xorb].
  pose proof (dig_bounds M) as [L U]. rewrite HM in L, U.
  change (2 ^ (53 - 1)) with (2 ^ 52) in L.
  assert (Hlo : 2 ^ 104 <= Zpos (M * M)).
  { rewrite Pos2Z.inj_mul. change (2 ^ 104) with (2 ^ 52 * 2 ^ 52). nia. }
  assert (Hhi : Zpos (M * M) < 2 ^ 106).
  { rewrite Pos2Z.inj_mul. change (2 ^ 106) with (2 ^ 53 * 2 ^ 53). nia. }
  pose proof (dig_ge (M * M) 105 Hlo) as D1.
  pose proof (dig_le (M * M) 106 ltac:(lia) Hhi) as D2.
  assert (D3 : E = -54 -> dig (M * M) = 106).
  { intros HE'. destruct HE as [[_ HE]|HE]; [|lia].
    assert (2 ^ 105 <= Zpos (M * M)).
    { rewrite Pos2Z.inj_mul.
      assert (3 * 2 ^ 51 * (3 * 2 ^ 51) <= Zpos M * Zpos M) by nia.
      assert (2 ^ 105 <= 3 * 2 ^ 51 * (3 * 2 ^ 51)) by (by vm_compute).
      lia. }
    pose proof (dig_ge (M * M) 106 H). lia. }
  destruct (aux_shape 53 1024 ltac:(lia) false (M * M) (E + E))
    as (Ma & Ea & Hr & HMa & HEa); [lia|lia|].
  unfold F64.prec, F64.emax. rewrite Hr. exists Ma, Ea.
  assert (HEa' : -55 <= Ea <= 0) by lia.
  destruct (Ea <=? 1024 - 53) eqn:El; [|lia]. done.
Qed.

Lemma compare_big Ma Ea :
  -55 <= Ea ->
  SFcompare (S754_finite false Ma Ea) F64.c_0_09 = Some Gt.
Proof.
  intros H. cbn [SFcompare F64.c_0_09]. f_equal.
  destruct (Ea ?= -56) eqn:Ec; try done.
  - apply Z.compare_eq_iff in Ec. lia.
  - assert (Ea < -56) by (apply Z.compare_lt_iff; exact Ec). lia.
Qed.

Lemma far_add Ma Ea b :
  dig Ma = 53 -> -55 <= Ea <= 0 ->
  match b with
  | S754_zero _ => True
  | S754_finite s _ _ | S754_infinity s => s = false
  | S754_nan => False
  end ->
  SFcompare (F64.add (S754_finite false Ma Ea) b) F64.c_0_09 = Some Gt.
Proof.
  intros HMa HEa Hb. unfold F64.add.
  destruct b as [sb|sb| |sb Mb Eb]; [| |done|].
  - cbn [SFadd]. apply compare_big. lia.
  - subst sb. reflexivity.
  - subst sb. cbn [SFadd cond_Zopp].
    set (ez := Z.min Ea Eb).
    assert (Hez : ez <= Ea /\ ez <= Eb) by (unfold ez; lia).
    pose proof (shl_align_val Ma Ea ez ltac:(lia)) as Ha.
    pose proof (shl_align_val Mb Eb ez ltac:(lia)) as Hbv.
    set (N := (fst (shl_align Ma Ea ez) + fst (shl_align Mb Eb ez))%positive).
    change (Z.pos (fst (shl_align Ma Ea ez)) + Z.pos (fst (shl_align Mb Eb ez)))
      with (Z.pos N).
    cbn [binary_normalize].
    assert (HN : Zpos N = Zpos Ma * 2 ^ (Ea - ez) + Zpos Mb * 2 ^ (Eb - ez)).
    { unfold N. rewrite Pos2Z.inj_add, Ha, Hbv. done. }
    pose proof (dig_bounds Ma) as [L _]. rewrite HMa in L.
    change (2 ^ (53 - 1)) with (2 ^ 52) in L.
    pose proof (pow2_pos (Ea - ez) ltac:(lia)) as P1.
    pose proof (pow2_pos (Eb - ez) ltac:(lia)) as P2.
    assert (HdN : 53 + (Ea - ez) <= dig N).
    { apply dig_ge. rewrite HN.
      replace (53 + (Ea - ez) - 1) with (52 + (Ea - ez)) by lia.
      rewrite Z.pow_add_r by lia. nia. }
    unfold binary_round. change (Z.pos (digits2_pos N)) with (dig N).
    assert (Hf : fexp F64.prec F64.emax (dig N + ez) = dig N + ez - 53).
    { unfold fexp, emin, F64.prec, F64.emax. lia. }
    rewrite Hf. unfold shl_align.
    destruct (dig N + ez - 53 - ez) as [|k|k] eqn:Ek; try lia.
    + destruct (aux_shape 53 1024 ltac:(lia) false N ez)
        as (M & E & Hr & HM & HE); [lia|lia|].
      unfold F64.prec, F64.emax. rewrite Hr.
      destruct (E <=? 1024 - 53); [apply compare_big; lia|reflexivity].
    + destruct (aux_shape 53 1024 ltac:(lia) false N ez)
        as (M & E & Hr & HM & HE); [lia|lia|].
      unfold F64.prec, F64.emax. rewrite Hr.
      destruct (E <=? 1024 - 53); [apply compare_big; lia|reflexivity].
Qed.

Lemma unit_f32_not_nan x : unit_f32 x = true -> F64.is_nan x = false.
Proof. by destruct x. Qed.

Lemma far_masks x y :
  unit_f32 x = true -> on_grid x = false -> F64.is_nan y = false ->
  mask_A (x, y) = false /\ mask_B (x, y) = true.
Proof.
  intros Hx Hg Hy.
  destruct (far_sub x Hx Hg) as (M & E & Hd & HM & HE).
  destruct (far_square M E HM HE) as (Ma & Ea & Ha & HMa & HEa).
  pose proof (square_shape _ (sub_centre_not_nan _ (to_f64_not_nan y Hy)))
    as Hb.
  assert (Hc : SFcompare (sq_dist (x, y)) F64.c_0_09 = Some Gt).
  { unfold sq_dist. cbn [fst snd]. rewrite Hd, Ha. by apply far_add. }
  unfold mask_A, mask_B, F64.lt, F64.ge, SFltb, SFleb.
  rewrite (SFcompare_antisym (sq_dist (x, y)) F64.c_0_09), Hc. done.
Qed.

(** ** The exact squared distance *)

Lemma sq_dist_Q_compat x x' y y' :
  Qeq x x' -> Qeq y y' -> Qeq (sq_dist_Q x y) (sq_dist_Q x' y').
Proof. intros Hx Hy. unfold sq_dist_Q. by rewrite Hx, Hy. Qed.

Lemma sq_dist_Q_grid (K L : Z) :
  Qeq (sq_dist_Q (K # 67108864) (L # 67108864))
      (((K - 2 ^ 25) * (K - 2 ^ 25) + (L - 2 ^ 25) * (L - 2 ^ 25))
         # 4503599627370496).
Proof.
  unfold sq_dist_Q, Qeq, Qminus, Qplus, Qmult, Qopp.
  cbn [Qnum Qden]. change (2 ^ 25) with 33554432.
  rewrite !Pos2Z.inj_mul. change (Z.pos 67108864) with 67108864. ring.
Qed.

Lemma sq_dist_Q_far (x y : Q) :
  Qle 0 x -> Qle x (1 # 8) -> Qle (9 # 64) (sq_dist_Q x y).
Proof.
  intros H0 H1. unfold sq_dist_Q.
  assert (H2 : Qle 0 (((1 # 8) - x) * ((7 # 8) - x)))
    by (apply Qmult_le_0_compat; lra).
  assert (H3 : Qle 0 ((y - (1 # 2)) * (y - (1 # 2)))).
  { unfold Qle, Qmult, Qminus, Qplus, Qopp. cbn [Qnum Qden].
    rewrite Z.mul_1_r. apply Z.square_nonneg. }
  nra.
Qed.

Lemma sq_dist_Q_sym x y : Qeq (sq_dist_Q x y) (sq_dist_Q y x).
Proof. unfold sq_dist_Q. ring. Qed.

Lemma to_Q_grid x :
  unit_f32 x = true -> on_grid x = true ->
  Qeq (F64.to_Q x) (grid x # 67108864).
Proof.
  destruct x as [s|s| |s m e]; try done. destruct s; [done|].
  intros (Hd & He & Hv & _)%unit_f32_finite Hg.
  cbn [on_grid] in Hg. apply Z.leb_le in Hg.
  assert (Hc : e = -26 \/ e = -25 \/ e = -24 \/ e = -23) by lia.
  destruct Hc as [-> | [-> | [-> | ->]]]; unfold Qeq; cbn; lia.
Qed.

Lemma to_Q_small x :
  unit_f32 x = true -> on_grid x = false ->
  Qle 0 (F64.to_Q x) /\ Qle (F64.to_Q x) (1 # 8).
Proof.
  destruct x as [s|s| |s m e]; try done. destruct s; [done|].
  intros (Hd & He & Hv & _)%unit_f32_finite Hg.
  cbn [on_grid] in Hg. apply Z.leb_gt in Hg.
  destruct e as [|p|p]; try lia.
  cbn [F64.to_Q]. unfold Qle. cbn [Qnum Qden].
  pose proof (dig_bounds m) as [_ U].
  assert (2 ^ dig m <= 2 ^ 24) by (apply Z.pow_le_mono_r; lia).
  assert (2 ^ 27 <= 2 ^ Zpos p) by (apply Z.pow_le_mono_r; lia).
  rewrite Pos2Z.inj_pow.
  change (2 ^ 24) with 16777216 in *. change (2 ^ 27) with 134217728 in *.
  change (Z.pos 2) with 2. split; lia.
Qed.

Lemma Qlt_grid N :
  Qlt (N # 4503599627370496) threshold_Q <-> 100 * N < 9 * 2 ^ 52.
Proof. unfold Qlt, threshold_Q. cbn. lia. Qed.

Lemma Qle_grid N :
  Qle threshold_Q (N # 4503599627370496) <-> 9 * 2 ^ 52 <= 100 * N.
Proof. unfold Qle, threshold_Q. cbn. lia. Qed.

Lemma exact_grid p :
  unit_f32 (fst p) = true -> unit_f32 (snd p) = true ->
  on_grid (fst p) = true -> on_grid (snd p) = true ->
  Qeq (exact_sq_dist p) (grid_sum p # 4503599627370496).
Proof.
  intros Hx Hy Gx Gy. unfold exact_sq_dist, grid_sum.
  rewrite <- sq_dist_Q_grid.
  apply sq_dist_Q_compat; by apply to_Q_grid.
Qed.

(** ** Line 13: the rows that [.astype(np.float32)] produces *)

Section Subnormal.
Variables prec emax : Z.
Hypothesis prec_pos : 0 < prec.
Hypothesis emin_le : emin prec emax <= emax - prec.

Lemma aux_subnormal s m e :
  e <= emin prec emax -> dig m + e - prec < emin prec emax ->
  binary_round_aux prec emax s (Zpos m) e loc_Exact = S754_zero s \/
  exists M, binary_round_aux prec emax s (Zpos m) e loc_Exact
            = S754_finite s M (emin prec emax) /\ Zpos M <= 2 ^ (prec - 1).
Proof.
  intros He Hd.
  assert (Hf : fexp prec emax (dig m + e) = emin prec emax)
    by (unfold fexp; lia).
  pose proof (dig_bounds m) as [_ Um]. pose proof (dig_pos m) as Hdp.
  assert (Hpp : 0 < 2 ^ (prec - 1)) by (apply Z.pow_pos_nonneg; lia).
  assert (Hfin : forall M, Zpos M <= 2 ^ (prec - 1) ->
            shr_fexp prec emax (Zpos M) (emin prec emax) loc_Exact
            = (Build_shr_record (Zpos M) false false, emin prec emax)).
  { intros M HM. apply shr_fexp_no_shift.
    assert (dig M <= prec).
    { apply dig_le; [done|].
      assert (2 ^ (prec - 1) < 2 ^ prec) by (apply Z.pow_lt_mono_r; lia).
      lia. }
    unfold fexp. lia. }
  destruct (Z.eq_dec e (emin prec emax)) as [->|Hne].
  - right. exists m. rewrite aux_no_shift by (done || lia).
    destruct (emin prec emax <=? emax - prec) eqn:El; [|lia].
    split; [done|].
    assert (2 ^ dig m <= 2 ^ (prec - 1)) by (apply Z.pow_le_mono_r; lia).
    lia.
  - assert (Hlt : e < fexp prec emax (dig m + e)) by lia.
    destruct (shr_fexp_shift prec emax m e Hlt) as (mrs & Hs & Hm).
    rewrite Hf in Hs, Hm.
    set (q := Zpos m / 2 ^ (emin prec emax - e)) in *.
    assert (Hq : 0 <= q < 2 ^ (prec - 1)).
    { assert (Hp : 0 < 2 ^ (emin prec emax - e))
        by (apply Z.pow_pos_nonneg; lia).
      unfold q. split; [apply Z.div_pos; lia|].
      apply Z.div_lt_upper_bound; [lia|].
      rewrite <- Z.pow_add_r by lia.
      assert (2 ^ dig m <= 2 ^ (emin prec emax - e + (prec - 1)))
        by (apply Z.pow_le_mono_r; lia).
      lia. }
    pose proof (round_nearest_even_range q (loc_of_shr_record mrs)) as Hr.
    unfold binary_round_aux. rewrite Hs, Hm.
    set (q' := round_nearest_even q (loc_of_shr_record mrs)) in *.
    destruct q' as [|M'|M'] eqn:Eq'; try lia.
    + left. unfold shr_fexp, shr. cbn [Zdigits2 shr_record_of_loc].
      replace (fexp prec emax (0 + emin prec emax) - emin prec emax) with 0
        by (unfold fexp; lia).
      reflexivity.
    + right. exists M'. rewrite Hfin by lia. cbn [shr_m].
      destruct (emin prec emax <=? emax - prec) eqn:El; [|lia].
      split; [done|lia].
Qed.

End Subnormal.

Lemma shl_align_spec m e e' :
  exists mz ez, shl_align m e e' = (mz, ez) /\ ez <= e' /\ ez <= e /\
                Zpos mz = Zpos m * 2 ^ (e - ez) /\ dig mz + ez = dig m + e.
Proof.
  unfold shl_align. destruct (e' - e) as [|d|d] eqn:E.
  - exists m, e. replace (e - e) with 0 by lia. repeat split; lia.
  - exists m, e. replace (e - e) with 0 by lia. repeat split; lia.
  - exists (shift_pos d m), e'.
    assert (Hv : Zpos (shift_pos d m) = Zpos m * 2 ^ (e - e')).
    { unfold shift_pos. rewrite pos_iter_xO. f_equal. f_equal. lia. }
    repeat split; try lia.
    rewrite (dig_shift m (e - e') ltac:(lia) _ Hv). lia.
Qed.

Lemma bounded_f32 M E :
  dig M <= 24 -> -149 <= E <= 104 -> (dig M = 24 \/ E = -149) ->
  bounded F32.prec F32.emax M E = true.
Proof.
  intros Hd HE Hc. unfold bounded, canonical_mantissa.
  change (Z.pos (digits2_pos M)) with (dig M).
  apply andb_true_intro. split.
  - apply Z.eqb_eq. unfold fexp, emin, F32.prec, F32.emax. lia.
  - apply Z.leb_le. unfold F32.prec, F32.emax. lia.
Qed.

Lemma of_f64_unit x : unit_f64 x = true -> unit_f32 (F32.of_f64 x) = true.
Proof.
  destruct x as [s|s| |s m e]; try done. destruct s; [done|].
  cbn [unit_f64 F32.of_f64]. intros [Hb Hv]%andb_prop.
  apply Z.ltb_lt in Hv.
  unfold bounded, canonical_mantissa in Hb.
  apply andb_prop in Hb as [Hc _]. apply Z.eqb_eq in Hc.
  change (Z.pos (digits2_pos m)) with (dig m) in Hc.
  unfold fexp, emin, F64.prec, F64.emax in Hc.
  assert (He : -1074 <= e) by lia.
  pose proof (dig_bounds m) as [Lm _]. pose proof (dig_pos m) as Hdp.
  assert (Hd : dig m + e <= 0).
  { destruct (Z.le_gt_cases (dig m + e) 0); [done|exfalso].
    assert (2 ^ 1074 <= 2 ^ (dig m - 1 + (e + 1074)))
      by (apply Z.pow_le_mono_r; lia).
    rewrite Z.pow_add_r in * by lia.
    pose proof (pow2_pos (e + 1074) ltac:(lia)).
    assert (2 ^ (dig m - 1) * 2 ^ (e + 1074) <= Zpos m * 2 ^ (e + 1074))
      by (apply Z.mul_le_mono_nonneg_r; lia).
    lia. }
  unfold binary_round.
  change (Z.pos (digits2_pos m)) with (dig m).
  destruct (shl_align_spec m e (fexp F32.prec F32.emax (dig m + e)))
    as (mz & ez & -> & Hz1 & Hz2 & Hz3 & Hz4).
  unfold F32.prec, F32.emax in *.
  destruct (Z.le_gt_cases (-149) (dig m + e - 24)) as [Hn|Hs].
  - assert (Hf : fexp 24 128 (dig m + e) = dig m + e - 24)
      by (unfold fexp, emin; lia).
    rewrite Hf in Hz1.
    destruct (aux_shape 24 128 ltac:(lia) false mz ez ltac:(lia) ltac:(lia))
      as (M & E & -> & HdM & HE).
    pose proof (dig_bounds M) as [_ UM]. rewrite HdM in UM.
    assert (HEr : -149 <= E <= -23) by lia.
    destruct (E <=? 128 - 24) eqn:El; [|lia].
    cbn [unit_f32]. apply andb_true_intro. split.
    + apply bounded_f32; lia.
    + apply Z.leb_le.
      assert (Hle : 2 ^ (dig m + e + 149) <= 2 ^ 149)
        by (apply Z.pow_le_mono_r; lia).
      destruct HE as [[-> _]|(-> & HM & _)].
      * pose proof (pow2_pos (dig mz + ez - 24 + 149) ltac:(lia)) as Hp.
        assert (Zpos M * 2 ^ (dig mz + ez - 24 + 149)
                <= 2 ^ 24 * 2 ^ (dig mz + ez - 24 + 149))
          by (apply Z.mul_le_mono_nonneg_r; lia).
        rewrite <- Z.pow_add_r in * by lia.
        replace (24 + (dig mz + ez - 24 + 149)) with (dig m + e + 149) in *
          by lia.
        lia.
      * rewrite HM. rewrite <- Z.pow_add_r by lia.
        replace (24 - 1 + (dig mz + ez - 24 + 1 + 149)) with (dig m + e + 149)
          by lia.
        done.
  - assert (Hf : fexp 24 128 (dig m + e) = -149) by (unfold fexp, emin; lia).
    rewrite Hf in Hz1.
    destruct (aux_subnormal 24 128 ltac:(lia) ltac:(by vm_compute) false mz ez)
      as [->|(M & -> & HM)].
    + unfold emin. lia.
    + unfold emin. lia.
    + done.
    + change (emin 24 128) with (-149). change (2 ^ (24 - 1)) with (2 ^ 23) in HM.
      cbn [unit_f32]. apply andb_true_intro. split.
      * assert (dig M <= 24).
        { apply dig_le; [lia|]. assert (2 ^ 23 < 2 ^ 24) by (by vm_compute). lia. }
        apply bounded_f32; lia.
      * apply Z.leb_le. change (2 ^ (-149 + 149)) with 1.
        assert (2 ^ 23 <= 2 ^ 149) by (by vm_compute). lia.
Qed.

(** ** The filters decide the exact distance *)

Lemma unit_row_split p :
  unit_row p = true -> unit_f32 (fst p) = true /\ unit_f32 (snd p) = true.
Proof. unfold unit_row. intros H. by apply andb_prop in H. Qed.

(** A row with a coordinate off the grid is outside the circle, for the
    script and in exact arithmetic. *)
Lemma exact_far p :
  unit_f32 (fst p) = true -> unit_f32 (snd p) = true ->
  on_grid (fst p) && on_grid (snd p) = false ->
  Qle (9 # 64) (exact_sq_dist p) /\ mask_A p = false /\ mask_B p = true.
Proof.
  intros Hx Hy Hg. unfold exact_sq_dist.
  destruct (on_grid (fst p)) eqn:Gx.
  - cbn [andb] in Hg.
    destruct (far_masks (snd p) (fst p) Hy Hg (unit_f32_not_nan _ Hx))
      as [HA HB].
    change (snd p, fst p) with (swap_columns p) in HA, HB.
    rewrite mask_A_swap in HA. rewrite mask_B_swap in HB.
    destruct (to_Q_small _ Hy Hg) as [H0 H1].
    split; [|done]. rewrite sq_dist_Q_sym. by apply sq_dist_Q_far.
  - destruct (far_masks (fst p) (snd p) Hx Gx (unit_f32_not_nan _ Hy))
      as [HA HB].
    replace (fst p, snd p) with p in HA, HB by (by destruct p).
    destruct (to_Q_small _ Hx Gx) as [H0 H1].
    split; [|done]. by apply sq_dist_Q_far.
Qed.

(** For a row of singles of the unit square the two masks of lines 14-15
    decide exactly on which side of the circle of squared radius 9/100 the
    row lies. *)
Lemma masks_exact (p : point) :
  unit_row p = true ->
  (mask_A p = true <-> Qlt (exact_sq_dist p) threshold_Q) /\
  (mask_B p = true <-> Qle threshold_Q (exact_sq_dist p)).
Proof.
  intros [Hx Hy]%unit_row_split.
  destruct (on_grid (fst p) && on_grid (snd p)) eqn:Hg.
  - apply andb_prop in Hg as [Gx Gy].
    destruct (grid_masks p Hx Hy Gx Gy) as [HA HB].
    pose proof (exact_grid p Hx Hy Gx Gy) as He.
    rewrite He, Qlt_grid, Qle_grid. done.
  - destruct (exact_far p Hx Hy Hg) as (Hq & HA & HB).
    rewrite HA, HB. unfold threshold_Q.
    split; split; intros H; try done; lra.
Qed.

(** No such row lies on the circle itself: 9/100 is not a dyadic number. *)
Lemma exact_sq_dist_off_threshold p :
  unit_row p = true -> ~ Qeq (exact_sq_dist p) threshold_Q.
Proof.
  intros [Hx Hy]%unit_row_split.
  destruct (on_grid (fst p) && on_grid (snd p)) eqn:Hg.
  - apply andb_prop in Hg as [Gx Gy].
    rewrite (exact_grid p Hx Hy Gx Gy).
    unfold Qeq, threshold_Q. cbn [Qnum Qden]. lia.
  - destruct (exact_far p Hx Hy Hg) as (Hq & _).
    unfold threshold_Q. intros He. lra.
Qed.

(** Draws of [0,1) give rows of the unit square. *)
Lemma f32_rows_unit uniform k n :
  (forall i, unit_f64 (fst (uniform k i)) = true /\
             unit_f64 (snd (uniform k i)) = true) ->
  Forall (fun p => unit_row p = true) (f32_rows uniform k n).
Proof.
  intros Hu. unfold f32_rows. apply Forall_fmap, Forall_forall.
  intros i _. destruct (Hu i) as [H1 H2]. unfold unit_row. cbn.
  by rewrite (of_f64_unit _ H1), (of_f64_unit _ H2).
Qed.

Lemma In_data_A_of data p : In p (data_A_of data) -> In p data.
Proof. rewrite data_A_of_eq. by intros [H _]%In_take%index_where_In. Qed.

Lemma In_data_B_of data p : In p (data_B_of data) -> In p data.
Proof. rewrite data_B_of_eq. by intros [H _]%In_take%index_where_In. Qed.

(** The classes of a run: with draws of [0,1), every row of data_A is
    inside the circle and every row of data_B on or outside it. *)
Lemma generated_classes_exact uniform k n :
  (forall i, unit_f64 (fst (uniform k i)) = true /\
             unit_f64 (snd (uniform k i)) = true) ->
  Forall (fun p => Qlt (exact_sq_dist p) threshold_Q)
         (data_A_of (f32_rows uniform k n)) /\
  Forall (fun p => Qle threshold_Q (exact_sq_dist p))
         (data_B_of (f32_rows uniform k n)).
Proof.
  intros Hu. pose proof (f32_rows_unit uniform k n Hu) as Hr.
  rewrite Forall_forall in Hr.
  split; apply Forall_forall; intros p Hp.
  - pose proof (Forall_data_A_of (f32_rows uniform k n)) as HA.
    rewrite Forall_forall in HA. specialize (HA p Hp).
    apply list_elem_of_In, In_data_A_of, list_elem_of_In, Hr in Hp.
    by apply (masks_exact p Hp).
  - pose proof (Forall_data_B_of (f32_rows uniform k n)) as HB.
    rewrite Forall_forall in HB. specialize (HB p Hp).
    apply list_elem_of_In, In_data_B_of, list_elem_of_In, Hr in Hp.
    by apply (masks_exact p Hp).
Qed.

(** The cast of line 13 matters.  The row of doubles (0.5, 0.2) is strictly
    inside the circle, but its computed squared distance is rounded up to
    the threshold and the B filter selects it; cast to float32 it is still
    inside the circle and the A filter selects it. *)
Lemma double_row_misjudged :
  unit_row boundary_row = false /\
  Qlt (exact_sq_dist boundary_row) threshold_Q /\
  mask_A boundary_row = false /\ mask_B boundary_row = true /\
  unit_row (astype_f32 boundary_row) = true /\
  Qlt (exact_sq_dist (astype_f32 boundary_row)) threshold_Q /\
  mask_A (astype_f32 boundary_row) = true /\
  mask_B (astype_f32 boundary_row) = false.
Proof. repeat split; by vm_compute. Qed.

(** C2. For a row of a generated sample array (two singles of the unit
    square, as line 13 produces them) the squared Euclidean distance to
    (0.5,0.5), taken exactly over the rationals, is strictly below 9/100
    when the row is in data_A and at least 9/100 when it is in data_B; the
    A filter selects exactly the rows of data strictly inside the circle and
    the B filter exactly those on or outside it, so that the boundary
    belongs to B.  At the level of the comparison operators, for any row
    whatever, a computed squared distance equal to the double nearest .09
    fails [<] and passes [>=]: the row is rejected by the A filter and
    selected by the B filter. *)
Theorem classes_respect_threshold (data : list point) (p : point) :
  (unit_row p = true ->
     (In p (data_A_of data) -> Qlt (exact_sq_dist p) threshold_Q) /\
     (In p (data_B_of data) -> Qle threshold_Q (exact_sq_dist p)) /\
     (In p (index_where mask_A data) <->
        In p data /\ Qlt (exact_sq_dist p) threshold_Q) /\
     (In p (index_where mask_B data) <->
        In p data /\ Qle threshold_Q (exact_sq_dist p))) /\
  (SFcompare (sq_dist p) F64.c_0_09 = Some Eq ->
     mask_A p = false /\ mask_B p = true /\
     ~ In p (data_A_of data) /\
     (In p data -> In p (index_where mask_B data))).
Proof.
  split.
  - intros Hu. destruct (masks_exact p Hu) as [HA HB].
    split; [|split; [|split]].
    + rewrite data_A_of_eq. intros [_ H]%In_take%index_where_In.
      by apply HA.
    + rewrite data_B_of_eq. intros [_ H]%In_take%index_where_In.
      by apply HB.
    + by rewrite index_where_In, HA.
    + by rewrite index_where_In, HB.
  - intros Heq.
    assert (HB : mask_B p = true) by (apply mask_B_compare; by left).
    assert (HA : mask_A p = false).
    { destruct (mask_A p) eqn:E; [|done].
      apply mask_A_compare in E. congruence. }
    repeat split; try done.
    + rewrite data_A_of_eq. intros H%In_take%index_where_In.
      destruct H; congruence.
    + intros Hin. by apply index_where_In.
Qed.

(** Both hypotheses of C2 are met: the row (0.5, 0.2) cast to float32 is
    inside the circle and in data_A, the row (0.75, 0.75) outside and in
    data_B, and the double row (0.5, 0.2) has a computed squared distance
    equal to the threshold. *)
Lemma classes_respect_threshold_witness :
  (unit_row (astype_f32 boundary_row) = true /\
   In (astype_f32 boundary_row) (data_A_of rounded_rows) /\
   Qlt (exact_sq_dist (astype_f32 boundary_row)) threshold_Q) /\
  (unit_row (astype_f32 probe_b) = true /\
   In (astype_f32 probe_b) (data_B_of rounded_rows) /\
   Qle threshold_Q (exact_sq_dist (astype_f32 probe_b))) /\
  (SFcompare (sq_dist boundary_row) F64.c_0_09 = Some Eq /\
   mask_A boundary_row = false /\ mask_B boundary_row = true /\
   ~ In boundary_row (data_A_of three_rows) /\
   (In boundary_row three_rows ->
    In boundary_row (index_where mask_B three_rows))).
Proof.
  assert (Ua : unit_row (astype_f32 boundary_row) = true) by (by vm_compute).
  assert (Ub : unit_row (astype_f32 probe_b) = true) by (by vm_compute).
  assert (Ia : In (astype_f32 boundary_row) (data_A_of rounded_rows))
    by (vm_compute; by left).
  assert (Ib : In (astype_f32 probe_b) (data_B_of rounded_rows))
    by (vm_compute; by left).
  assert (Ec : SFcompare (sq_dist boundary_row) F64.c_0_09 = Some Eq)
    by (by vm_compute).
  split; [|split].
  - split; [exact Ua|]. split; [exact Ia|].
    exact (proj1 (proj1 (classes_respect_threshold rounded_rows
                           (astype_f32 boundary_row)) Ua) Ia).
  - split; [exact Ub|]. split; [exact Ib|].
    exact (proj1 (proj2 (proj1 (classes_respect_threshold rounded_rows
                                  (astype_f32 probe_b)) Ub)) Ib).
  - split; [exact Ec|].
    exact (proj2 (classes_respect_threshold three_rows boundary_row) Ec).
Defined.
